(** * License server of PC Optimizer (index.js): validation and registration

    A shallow embedding of the request handlers of [index.js] and of the
    Firestore helpers they call, followed by the properties of the license
    state machine.

    Conventions of the embedding.
    - A JavaScript string is a [string]; one character stands for one code
      unit (only code units below 256 are representable, which covers every
      string the handlers build themselves).
    - A date is its time value in milliseconds ([Z]); [toISOString] is
      injective on valid dates, so a stored ISO string is represented by the
      time value it denotes.  One request is evaluated at one clock reading
      [now]: every [new Date()] of the request returns it.
    - An object field that may be absent is an [option]; [None] is the absent
      field ([undefined]).
    - The Firestore database is an explicit state; each handler is a
      computation over it that also records every store access it attempts
      and may throw.  Which store accesses fail is an input ([faults]).
    - License documents have the shape this program writes.  For the ban-list
      document the shapes the program does not write are kept: a [hwids] field
      that is a string, on which [banlist.includes] is a substring test, and
      one that has no [includes] method, on which the call throws.
    - A query or body parameter is a string or absent, and [req.ip] is a
      string. *)

From stdpp Require Import gmap strings list pretty.
From Stdlib Require Import ZArith.

Local Open Scope string_scope.
Local Open Scope list_scope.

(** ** Data model *)

(** [activatedAt]: the empty string written at creation, or an ISO date. *)
Inductive Stamp :=
  | Unset
  | At (t : Z).

(** [expiry]: [null], an ISO date, or a string [new Date] cannot parse
    (which gives an invalid date, time value NaN). *)
Inductive ExpiryVal :=
  | ExpiryNull
  | ExpiryDate (t : Z)
  | ExpiryUnparsable.

Record HistoryEntry := mkHistoryEntry {
  action : string;
  date : Z;
  details : option string;
  ip : option string;
  admin : option string
}.

Record License := mkLicense {
  hwid : option string;
  activatedAt : option Stamp;
  expiry : option ExpiryVal;
  history : option (list HistoryEntry);
  createdAt : option Z;
  createdBy : option string;
  batchId : option Z;
  lastValidated : option Z;
  activationIP : option string;
  deviceInfo : option string
}.

Record Settings := mkSettings {
  maxDevicesPerLicense : option Z;
  allowHwidChange : option bool;
  autoExpireInDays : option Z;
  maintenanceMode : option bool;
  apiEnabled : option bool
}.

(** The value of the [hwids] field of the ban-list document: an array of
    strings; a string, which has [includes] (a substring test) but neither
    [push] nor [filter]; or a truthy value with none of these methods (a
    number other than 0, [true], a map). *)
Inductive JsHwids :=
  | Hwids (l : list string)
  | HwidsText (s : string)
  | NotAList.

Record LogEntry := mkLogEntry {
  log_action : string;
  log_details : string;
  log_ip : string;
  log_userAgent : string;
  log_date : Z
}.

(** The collections the handlers touch.  [banlist] and [settings] are single
    documents: the outer [None] is "the document does not exist", the inner
    [None] of [banlist] a missing (or falsy) [hwids] field. *)
Record Db := mkDb {
  licenses : gmap string License;
  banlist : option (option JsHwids);
  settings : option Settings;
  activityLog : list LogEntry
}.

(** Store accesses, as recorded in the trace and as selected by [faults]. *)
Inductive StoreOp :=
  | OpGetLicenses
  | OpGetLicense (licenseKey : string)
  | OpSaveLicense (licenseKey : string)
  | OpGetBanlist
  | OpSaveBanlist
  | OpLogActivity
  | OpGetSettings.

(** Replies of [/api/validate] and [/api/register]. *)
Inductive Outcome :=
  | FAILED
  | API_DISABLED
  | BANNED
  | INVALID_LICENSE
  | EXPIRED
  | VALID
  | HWID_MISMATCH
  | ALREADY_REGISTERED
  | HWID_IN_USE
  | SUCCESS
  | ERROR.

(** Replies of the admin actions modelled here. *)
Inductive AdminReply :=
  | Redirected
  | AlertLicenseExists
  | AlertMaximum
  | AlertError.

(** Query parameters and the request data the API handlers read. *)
Record Request := mkRequest {
  q_license : option string;
  q_hwid : option string;
  req_ip : string;
  req_userAgent : option string
}.

(** ** JavaScript primitives *)

(** Truthiness of a value that is a string or [undefined]. *)
Definition truthy (o : option string) : bool :=
  match o with
  | Some s => negb (bool_decide (s = ""))
  | None => false
  end.

Definition truthy_flag (o : option bool) : bool :=
  match o with
  | Some b => b
  | None => false
  end.

(** [a || b] for a string-or-undefined [a]. *)
Definition or_default (o : option string) (d : string) : string :=
  match o with
  | Some s => if bool_decide (s = "") then d else s
  | None => d
  end.

(** [x === s] where [x] is a string or [undefined] and [s] a string. *)
Definition strict_eq (o : option string) (s : string) : bool :=
  bool_decide (o = Some s).

(** JavaScript white space among the code units below 256: TAB, LF, VT, FF,
    CR, SPACE and NBSP. *)
Definition is_white_space (c : Ascii.ascii) : bool :=
  let n := Ascii.nat_of_ascii c in
  ((9 <=? n) && (n <=? 13))%nat || (n =? 32)%nat || (n =? 160)%nat.

Fixpoint trimStart (s : string) : string :=
  match s with
  | EmptyString => EmptyString
  | String c s' => if is_white_space c then trimStart s' else s
  end.

Fixpoint trimEnd (s : string) : string :=
  match s with
  | EmptyString => EmptyString
  | String c s' =>
      match trimEnd s' with
      | EmptyString => if is_white_space c then EmptyString else String c EmptyString
      | t => String c t
      end
  end.

(** [String.prototype.trim] *)
Definition trim (s : string) : string := trimEnd (trimStart s).

(** [Buffer.toString('hex')]: two lower-case digits per byte. *)
Definition hex_digit (n : N) : Ascii.ascii :=
  if (n <? 10)%N then Ascii.ascii_of_N (48 + n) else Ascii.ascii_of_N (87 + n).

Fixpoint toHex (bytes : list N) : string :=
  match bytes with
  | [] => EmptyString
  | b :: bs => String (hex_digit (b / 16)) (String (hex_digit (b mod 16)) (toHex bs))
  end.

Definition upper_char (c : Ascii.ascii) : Ascii.ascii :=
  let n := Ascii.N_of_ascii c in
  if ((97 <=? n) && (n <=? 122))%N then Ascii.ascii_of_N (n - 32) else c.

(** [String.prototype.toUpperCase], on the strings it is applied to here
    (hexadecimal digits). *)
Fixpoint toUpperCase (s : string) : string :=
  match s with
  | EmptyString => EmptyString
  | String c s' => String (upper_char c) (toUpperCase s')
  end.

(** [s.includes(x)] on a string [s]: [x] occurs in [s] as a substring. *)
Definition occurs_in (x s : string) : Prop := is_Some (String.index 0 x s).

#[global] Instance occurs_in_dec x s : Decision (occurs_in x s).
Proof. unfold occurs_in. apply _. Defined.

(** ** Record updates (object spread with overrides) *)

Definition set_lastValidated (t : Z) (lic : License) : License :=
  mkLicense (hwid lic) (activatedAt lic) (expiry lic) (history lic)
    (createdAt lic) (createdBy lic) (batchId lic) (Some t)
    (activationIP lic) (deviceInfo lic).

(** [set(data, {merge: true})] on an existing document: the fields present
    in [data] replace the stored ones, the others are kept. *)
Definition merge_license (old data : License) : License :=
  mkLicense
    (from_option Some (hwid old) (hwid data))
    (from_option Some (activatedAt old) (activatedAt data))
    (from_option Some (expiry old) (expiry data))
    (from_option Some (history old) (history data))
    (from_option Some (createdAt old) (createdAt data))
    (from_option Some (createdBy old) (createdBy data))
    (from_option Some (batchId old) (batchId data))
    (from_option Some (lastValidated old) (lastValidated data))
    (from_option Some (activationIP old) (activationIP data))
    (from_option Some (deviceInfo old) (deviceInfo data)).

(** The defaults [getSettings] returns when the document does not exist, and
    the empty object it returns when the read fails. *)
Definition default_settings : Settings :=
  mkSettings (Some 1%Z) (Some true) (Some 30%Z) (Some false) (Some true).

Definition empty_settings : Settings :=
  mkSettings None None None None None.

(** ** Handlers as computations over the store *)

(** What a request can change or consume: the database, the list of store
    accesses attempted so far, and the number of random bytes drawn. *)
Record World := mkWorld {
  db : Db;
  trace : list StoreOp;
  drawn : nat
}.

Inductive Result (A : Type) :=
  | Ok (a : A)
  | Thrown.
Arguments Ok {A} a.
Arguments Thrown {A}.

(** A computation returns a value or throws; the state survives a throw
    (a write made before an exception stays made). *)
Definition M (A : Type) : Type := World → Result A * World.

#[global] Instance M_ret : MRet M := λ A a w, (Ok a, w).

#[global] Instance M_bind : MBind M := λ A B f m w,
  match m w with
  | (Ok a, w') => f a w'
  | (Thrown, w') => (Thrown, w')
  end.

Definition throw {A : Type} : M A := λ w, (Thrown, w).

(** [try { m } catch (error) { h }] *)
Definition try_catch {A : Type} (m h : M A) : M A := λ w,
  match m w with
  | (Ok a, w') => (Ok a, w')
  | (Thrown, w') => h w'
  end.

Definition gets {A : Type} (f : Db → A) : M A := λ w, (Ok (f (db w)), w).

Definition with_db (f : Db → Db) (w : World) : World :=
  mkWorld (f (db w)) (trace w) (drawn w).

Definition traced (op : StoreOp) (w : World) : World :=
  mkWorld (db w) (trace w ++ [op]) (drawn w).

Definition modify (f : Db → Db) : M () := λ w, (Ok (), with_db f w).

Definition set_licenses (m : gmap string License) (d : Db) : Db :=
  mkDb m (banlist d) (settings d) (activityLog d).

Definition set_banlist (b : option (option JsHwids)) (d : Db) : Db :=
  mkDb (licenses d) b (settings d) (activityLog d).

Definition add_log (e : LogEntry) (d : Db) : Db :=
  mkDb (licenses d) (banlist d) (settings d) (activityLog d ++ [e]).

(** Writing [data] to [licenses/licenseKey] with [{merge: true}]. *)
Definition write_license (licenseKey : string) (data : License) (d : Db) : Db :=
  match licenses d !! licenseKey with
  | Some old => set_licenses (<[licenseKey := merge_license old data]> (licenses d)) d
  | None => set_licenses (<[licenseKey := data]> (licenses d)) d
  end.

(** [doc.exists ? doc.data().hwids || [] : []]; the empty string is
    falsy. *)
Definition hwids_of (doc : option (option JsHwids)) : JsHwids :=
  match doc with
  | Some (Some (HwidsText "")) => Hwids []
  | Some (Some v) => v
  | Some None => Hwids []
  | None => Hwids []
  end.

Section Handlers.

(** The store accesses that fail during the request. *)
Variable faults : StoreOp → bool.
(** The clock reading of the request. *)
Variable now : Z.
(** The bytes [crypto.randomBytes] delivers, in the order drawn. *)
Variable entropy : nat → N.
(** [Date.prototype.toISOString], used only inside log messages. *)
Variable toISOString : Z → string.

(** One awaited Firestore call: recorded, and rejected when it fails. *)
Definition access (op : StoreOp) : M () := λ w,
  if faults op then (Thrown, traced op w) else (Ok (), traced op w).

(** [crypto.randomBytes(n)] *)
Definition randomBytes (n : nat) : M (list N) := λ w,
  (Ok (map (λ i, (entropy (drawn w + i) mod 256)%N) (seq 0 n)),
   mkWorld (db w) (trace w) (drawn w + n)).

(** *** Database helpers *)

Definition getLicenses : M (gmap string License) :=
  try_catch
    (access OpGetLicenses;;
     gets licenses)
    (mret ∅).

Definition getLicense (licenseKey : string) : M (option License) :=
  try_catch
    (access (OpGetLicense licenseKey);;
     gets (λ d, licenses d !! licenseKey))
    (mret None).

Definition saveLicense (licenseKey : string) (data : License) : M bool :=
  try_catch
    (access (OpSaveLicense licenseKey);;
     modify (write_license licenseKey data);;
     mret true)
    (mret false).

Definition getBanlist : M JsHwids :=
  try_catch
    (access OpGetBanlist;;
     doc ← gets banlist;
     mret (hwids_of doc))
    (mret (Hwids [])).

Definition saveBanlist (banlist : JsHwids) : M bool :=
  try_catch
    (access OpSaveBanlist;;
     modify (set_banlist (Some (Some banlist)));;
     mret true)
    (mret false).

Definition logActivity (action details ip : string) (userAgent : option string) : M () :=
  try_catch
    (access OpLogActivity;;
     modify (add_log (mkLogEntry action details ip
                        (default "unknown" userAgent) now)))
    (mret ()).

Definition getSettings : M Settings :=
  try_catch
    (access OpGetSettings;;
     doc ← gets settings;
     mret (default default_settings doc))
    (mret empty_settings).

(** *** Utility functions *)

Definition isLicenseExpired (license : License) : bool :=
  match expiry license with
  | None => false
  | Some ExpiryNull => false
  | Some (ExpiryDate t) => bool_decide (now > t)%Z
  | Some ExpiryUnparsable => false
  end.

(** [banlist.includes(x)]: membership in an array, occurrence in a string;
    a [TypeError] when [banlist] has no such method. *)
Definition includes (banlist : JsHwids) (x : string) : M bool :=
  match banlist with
  | Hwids l => mret (bool_decide (x ∈ l))
  | HwidsText s => mret (bool_decide (occurs_in x s))
  | NotAList => throw
  end.

(** [banlist.push(x)]; a [TypeError] on a string. *)
Definition push (banlist : JsHwids) (x : string) : M JsHwids :=
  match banlist with
  | Hwids l => mret (Hwids (l ++ [x]))
  | HwidsText _ => throw
  | NotAList => throw
  end.

Definition isHWIDBanned (hwid : string) (banlist : JsHwids) : M bool :=
  includes banlist hwid.

Definition generateSecureLicenseKey (prefix : string) : M string :=
  a ← randomBytes 4;
  b ← randomBytes 4;
  mret (prefix +:+ "-" +:+ toUpperCase (toHex a) +:+ "-" +:+ toUpperCase (toHex b)).

(** *** API endpoints *)

(** The loop of [/api/register] over [Object.entries(allLicenses)]. *)
Fixpoint hwid_in_use (entries : list (string * License)) (license hwid' : string) : bool :=
  match entries with
  | [] => false
  | (licKey, licData) :: rest =>
      if strict_eq (hwid licData) hwid' && negb (bool_decide (licKey = license))
      then true
      else hwid_in_use rest license hwid'
  end.

(** [GET /api/validate] *)
Definition api_validate (req : Request) : M Outcome :=
  if negb (truthy (q_license req)) || negb (truthy (q_hwid req)) then mret FAILED else
  let license := default "" (q_license req) in
  let hwid' := default "" (q_hwid req) in
  try_catch
    (logActivity "API_VALIDATE" ("License: " +:+ license +:+ " HWID: " +:+ hwid')
       (req_ip req) (req_userAgent req);;
     settings ← getSettings;
     if negb (truthy_flag (apiEnabled settings)) then mret API_DISABLED else
     banlist ← getBanlist;
     banned ← isHWIDBanned hwid' banlist;
     if (banned : bool) then mret BANNED else
     lic ← getLicense license;
     match (lic : option License) with
     | None => mret INVALID_LICENSE
     | Some lic =>
         if isLicenseExpired lic then mret EXPIRED else
         if strict_eq (hwid lic) hwid' then
           saveLicense license (set_lastValidated now lic);;
           mret VALID
         else mret HWID_MISMATCH
     end)
    (mret ERROR).

(** The object [updatedLic] built by [/api/register]. *)
Definition registered (lic : License) (hwid' : string) (req : Request) : License :=
  mkLicense
    (Some hwid')
    (Some (At now))
    (expiry lic)
    (Some (default [] (history lic) ++
           [mkHistoryEntry "REGISTER" now (Some hwid') (Some (req_ip req)) None]))
    (createdAt lic)
    (createdBy lic)
    (batchId lic)
    (Some now)
    (Some (req_ip req))
    (Some (or_default (req_userAgent req) "Unknown")).

(** [GET /api/register] *)
Definition api_register (req : Request) : M Outcome :=
  if negb (truthy (q_license req)) || negb (truthy (q_hwid req)) then mret FAILED else
  let license := default "" (q_license req) in
  let hwid' := default "" (q_hwid req) in
  try_catch
    (logActivity "API_REGISTER" ("License: " +:+ license +:+ " HWID: " +:+ hwid')
       (req_ip req) (req_userAgent req);;
     settings ← getSettings;
     if negb (truthy_flag (apiEnabled settings)) then mret API_DISABLED else
     banlist ← getBanlist;
     banned ← isHWIDBanned hwid' banlist;
     if (banned : bool) then mret BANNED else
     lic ← getLicense license;
     match (lic : option License) with
     | None => mret INVALID_LICENSE
     | Some lic =>
         if isLicenseExpired lic then mret EXPIRED else
         if truthy (hwid lic) && negb (strict_eq (hwid lic) hwid')
         then mret ALREADY_REGISTERED else
         allLicenses ← getLicenses;
         if hwid_in_use (map_to_list allLicenses) license hwid'
         then mret HWID_IN_USE else
         saveLicense license (registered lic hwid' req);;
         mret SUCCESS
     end)
    (mret ERROR).

(** *** Admin actions (the handler bodies, run after [requireLogin]) *)

(** The record a newly generated license starts with. *)
Definition fresh_license (expiry : ExpiryVal) (user : string) (batch : option Z) : License :=
  mkLicense (Some "") (Some Unset) (Some expiry) (Some []) (Some now) (Some user)
    batch None None None.

(** [POST /admin/generate-license].  [body_expiry] is [req.body.expiry]:
    [None] when absent or empty, [Some None] when [new Date] cannot parse
    it (then [toISOString] throws), [Some (Some t)] otherwise. *)
Definition admin_generate_license (user : string) (body_license : option string)
    (body_expiry : option (option Z)) (ip : string) (userAgent : option string)
    : M AdminReply :=
  try_catch
    (license ← (if truthy body_license then mret (default "" body_license)
                else generateSecureLicenseKey "LIC");
     existingLicense ← getLicense license;
     if bool_decide (is_Some existingLicense) then mret AlertLicenseExists else
     expiry ← match body_expiry return M ExpiryVal with
              | None => mret ExpiryNull
              | Some None => throw
              | Some (Some t) => mret (ExpiryDate t)
              end;
     saveLicense license (fresh_license expiry user None);;
     logActivity "LICENSE_GENERATED"
       ("License: " +:+ license +:+ " Expiry: " +:+
        match expiry with ExpiryDate t => toISOString t | _ => "Never" end)
       ip userAgent;;
     mret Redirected)
    (mret AlertError).

(** The [for] loop of [/admin/bulk-generate]; returns the array [licenses]. *)
Fixpoint bulk_loop (n : nat) (prefix user : string) : M (list string) :=
  match n with
  | O => mret []
  | S n' =>
      license ← generateSecureLicenseKey prefix;
      saveLicense license (fresh_license ExpiryNull user (Some now));;
      rest ← bulk_loop n' prefix user;
      mret (license :: rest)
  end.

(** [POST /admin/bulk-generate].  [parsed_count] is
    [parseInt(req.body.count)], [None] standing for NaN. *)
Definition admin_bulk_generate (user : string) (parsed_count : option Z)
    (body_prefix : option string) (ip : string) (userAgent : option string)
    : M AdminReply :=
  try_catch
    (let count := match parsed_count with
                  | None => 1%Z
                  | Some c => if bool_decide (c = 0%Z) then 1%Z else c
                  end in
     let prefix := or_default body_prefix "LIC" in
     if bool_decide (count > 100)%Z then mret AlertMaximum else
     bulk_loop (Z.to_nat count) prefix user;;
     logActivity "BULK_GENERATE"
       ("Generated " +:+ pretty count +:+ " licenses with prefix: " +:+ prefix)
       ip userAgent;;
     mret Redirected)
    (mret AlertError).

(** [POST /admin/ban-hwid] *)
Definition admin_ban_hwid (body_hwid body_reason : option string)
    (ip : string) (userAgent : option string) : M AdminReply :=
  try_catch
    ((if truthy body_hwid && truthy (trim <$> body_hwid) then
        let hwid' := default "" body_hwid in
        banlist ← getBanlist;
        present ← includes banlist (trim hwid');
        if negb (present : bool) then
          banlist ← push banlist (trim hwid');
          saveBanlist banlist;;
          logActivity "HWID_BANNED"
            ("HWID: " +:+ hwid' +:+ " Reason: " +:+ or_default body_reason "No reason")
            ip userAgent
        else mret ()
      else mret ());;
     mret Redirected)
    (mret AlertError).

End Handlers.

Arguments hwids_of : simpl never.
Arguments write_license : simpl never.
Arguments isLicenseExpired : simpl never.
Arguments trim : simpl never.

(** Running a handler on a database: the reply, the database afterwards and
    the store accesses attempted. *)
Definition run {A : Type} (m : M A) (d : Db) : Result A * World :=
  m (mkWorld d [] 0).

(** A store on which no access fails. *)
Definition reliable : StoreOp → bool := λ _, false.

(** ** The specification's decision tables

    The decision orders of the specification, written after its words (first
    match wins); the handlers are compared with them below. *)

Definition spec_validate (apiEnabled : bool) (bans : list string)
    (record : option License) (now : Z) (candidate : string) : Outcome :=
  if negb apiEnabled then API_DISABLED
  else if bool_decide (candidate ∈ bans) then BANNED
  else match record with
       | None => INVALID_LICENSE
       | Some r =>
           if isLicenseExpired now r then EXPIRED
           else if bool_decide (hwid r = Some candidate) then VALID
           else HWID_MISMATCH
       end.

(** "The record already has a different non-empty HWID bound". *)
Definition bound_to_other (r : License) (candidate : string) : Prop :=
  ∃ h0, hwid r = Some h0 ∧ h0 ≠ "" ∧ h0 ≠ candidate.

(** "Another license record in the store already has this HWID bound". *)
Definition held_elsewhere (m : gmap string License) (license candidate : string) : Prop :=
  ∃ k r, k ≠ license ∧ m !! k = Some r ∧ hwid r = Some candidate.

(** The flag [settings.apiEnabled] as a handler reads it from a store that
    answers. *)
Definition api_enabled (d : Db) : bool :=
  truthy_flag (apiEnabled (default default_settings (settings d))).

(** An unbound record: no [hwid] field, or the empty string. *)
Definition unbound (r : License) : Prop := truthy (hwid r) = false.

(** Both query parameters present and non-empty. *)
Definition well_formed (req : Request) (license candidate : string) : Prop :=
  q_license req = Some license ∧ license ≠ "" ∧
  q_hwid req = Some candidate ∧ candidate ≠ "".

(** The decision order of [/api/register], with the two conflict tests as
    the handler computes them; [in_use] is the result of the scan. *)
Definition register_decision (apiEnabled : bool) (bans : list string)
    (record : option License) (in_use : bool) (now : Z) (candidate : string) : Outcome :=
  if negb apiEnabled then API_DISABLED
  else if bool_decide (candidate ∈ bans) then BANNED
  else match record with
       | None => INVALID_LICENSE
       | Some r =>
           if isLicenseExpired now r then EXPIRED
           else if truthy (hwid r) && negb (strict_eq (hwid r) candidate)
                then ALREADY_REGISTERED
           else if in_use then HWID_IN_USE
           else SUCCESS
       end.

(** The decision of [/api/register] on the store as it is. *)
Definition register_on (d : Db) (bans : list string) (license : string) (now : Z)
    (candidate : string) : Outcome :=
  register_decision (api_enabled d) bans (licenses d !! license)
    (hwid_in_use (map_to_list (licenses d)) license candidate) now candidate.

(** ** Failing store accesses: what the handlers read *)

(** What a handler gets to see when the accesses selected by [f] fail: each
    helper replaces its failed read by its fallback value. *)
Definition enabled_read (f : StoreOp → bool) (d : Db) : bool :=
  if f OpGetSettings then false else api_enabled d.

Definition banlist_read (f : StoreOp → bool) (d : Db) : JsHwids :=
  if f OpGetBanlist then Hwids [] else hwids_of (banlist d).

Definition license_read (f : StoreOp → bool) (d : Db) (license : string) : option License :=
  if f (OpGetLicense license) then None else licenses d !! license.

Definition licenses_read (f : StoreOp → bool) (d : Db) : gmap string License :=
  if f OpGetLicenses then ∅ else licenses d.

(** ** Sample stores and requests *)

Definition new_license : License :=
  mkLicense (Some "") (Some Unset) (Some ExpiryNull) (Some []) (Some 1000%Z)
    (Some "admin") None None None None.

Definition bound_license (h : string) : License :=
  mkLicense (Some h) (Some (At 2000)) (Some ExpiryNull)
    (Some [mkHistoryEntry "REGISTER" 2000 (Some h) (Some "203.0.113.7") None])
    (Some 1000%Z) (Some "admin") None (Some 2000%Z) (Some "203.0.113.7")
    (Some "client/1.0").

Definition ask (license h : string) : Request :=
  mkRequest (Some license) (Some h) "203.0.113.7" (Some "client/1.0").

(** One unbound license, no ban list and no settings document. *)
Definition fresh_db : Db :=
  mkDb {[ "LIC-AAAA" := new_license ]} None None [].

(** Two unbound licenses. *)
Definition two_db : Db :=
  mkDb (<[ "LIC-BBBB" := new_license ]> {[ "LIC-AAAA" := new_license ]}) None None [].

(** One license bound to H1. *)
Definition bound_db : Db :=
  mkDb {[ "LIC-AAAA" := bound_license "H1" ]} None None [].

(** H1 is banned and the API is switched off. *)
Definition disabled_db : Db :=
  mkDb {[ "LIC-AAAA" := bound_license "H1" ]} (Some (Some (Hwids ["H1"])))
    (Some (mkSettings (Some 1%Z) (Some true) (Some 30%Z) (Some false) (Some false))) [].

(** H1 is banned, the API is on. *)
Definition banned_db : Db :=
  mkDb {[ "LIC-AAAA" := bound_license "H1" ]} (Some (Some (Hwids ["H1"]))) None [].

(** A license whose key is the one eight zero bytes generate. *)
Definition colliding_db : Db :=
  mkDb {[ "LIC-00000000-00000000" := bound_license "H1" ]} None None [].

(** Only the read of a single license record fails. *)
Definition license_read_fails : StoreOp → bool := λ op,
  match op with
  | OpGetLicense _ => true
  | _ => false
  end.

(** ** The remaining handlers over the same store *)

(** Replies of [/api/license-info]: the two fixed texts, or the status line,
    given by its status word and the record its other three parts
    ([Activated], [Expires], [Last Seen]) are rendered from. *)
Inductive InfoReply :=
  | InfoNotFound
  | InfoStatus (status : string) (lic : License)
  | InfoFailed.

(** Replies of [POST /admin/login]. *)
Inductive LoginReply :=
  | LoginToAdmin
  | LoginInvalid
  | LoginServerError.

(** The four counters shown on the dashboard. *)
Record Stats := mkStats {
  totalLicenses : nat;
  activeLicenses : nat;
  expiredLicenses : nat;
  recentActivity : nat
}.

(** [formatTimeAgo(date)] on the time values of the clock and of a valid
    [date].  The code subtracts and divides in binary64 and applies
    [Math.floor]; written here are the exact difference and the floor
    division, which give the same text as the code when the difference is
    below 9 * 10^15 ms: a positive difference is then exact and its rounded
    quotient has the integer part of the exact one, and a difference that is
    not positive prints the same text either way.  For larger differences
    the two can differ, so the statements about this function assume that
    range. *)
Definition formatTimeAgo (now : Z) (date : Z) : string :=
  let diff := (now - date)%Z in
  let minutes := (diff / 60000)%Z in
  let hours := (diff / 3600000)%Z in
  let days := (diff / 86400000)%Z in
  if bool_decide (days > 0)%Z then pretty days +:+ "d ago"
  else if bool_decide (hours > 0)%Z then pretty hours +:+ "h ago"
  else if bool_decide (minutes > 0)%Z then pretty minutes +:+ "m ago"
  else "Just now".

(** The status word of [/api/license-info] and of a dashboard row:
    [isLicenseExpired(lic) ? "EXPIRED" : (lic.hwid ? "ACTIVE" : "INACTIVE")]. *)
Definition license_status (now : Z) (lic : License) : string :=
  if isLicenseExpired now lic then "EXPIRED"
  else if truthy (hwid lic) then "ACTIVE" else "INACTIVE".

(** One step of the dashboard's [Object.values(licenses).forEach]. *)
Definition count_license (now : Z) (acc : Stats) (license : License) : Stats :=
  let acc1 :=
    if truthy (hwid license) then
      if isLicenseExpired now license
      then mkStats (totalLicenses acc) (activeLicenses acc) (S (expiredLicenses acc))
             (recentActivity acc)
      else mkStats (totalLicenses acc) (S (activeLicenses acc)) (expiredLicenses acc)
             (recentActivity acc)
    else acc in
  match lastValidated license with
  | Some t =>
      if bool_decide (t > now - 24 * 60 * 60 * 1000)%Z
      then mkStats (totalLicenses acc1) (activeLicenses acc1) (expiredLicenses acc1)
             (S (recentActivity acc1))
      else acc1
  | None => acc1
  end.

(** The statistics block of [GET /admin], from the object [getLicenses]
    returned. *)
Definition dashboard_stats (now : Z) (licenses : gmap string License) : Stats :=
  foldl (count_license now) (mkStats (size licenses) 0 0 0)
    ((map_to_list licenses).*2).

(** The objects [updatedLic] built by [/admin/reset-hwid] and
    [/admin/approve-hwid-reset]; [action] tells them apart. *)
Definition reset_license (now : Z) (action user : string) (lic : License) : License :=
  mkLicense
    (Some "")
    (Some Unset)
    (expiry lic)
    (Some (default [] (history lic) ++
           [mkHistoryEntry action now None None (Some user)]))
    (createdAt lic)
    (createdBy lic)
    (batchId lic)
    (lastValidated lic)
    (activationIP lic)
    (deviceInfo lic).

Section MoreHandlers.

Variable faults : StoreOp → bool.
Variable now : Z.
(** [CONFIG.ADMIN_USERNAME] and [CONFIG.ADMIN_PASSWORD]. *)
Variable ADMIN_USERNAME ADMIN_PASSWORD : string.

(** [banlist.filter(h => h !== hwid)]; a [TypeError] on a string. *)
Definition filter_out (banlist : JsHwids) (hwid' : option string) : M JsHwids :=
  match banlist with
  | Hwids l => mret (Hwids (filter (λ h, Some h ≠ hwid') l))
  | HwidsText _ => throw
  | NotAList => throw
  end.

(** [POST /admin/unban-hwid] *)
Definition admin_unban_hwid (body_hwid : option string) (ip : string)
    (userAgent : option string) : M AdminReply :=
  try_catch
    (banlist ← getBanlist faults;
     newBanlist ← filter_out banlist body_hwid;
     saveBanlist faults newBanlist;;
     logActivity faults now "HWID_UNBANNED"
       ("HWID: " +:+ default "undefined" body_hwid) ip userAgent;;
     mret Redirected)
    (mret AlertError).

(** [POST /admin/reset-hwid]; [license] is the body field, taken present. *)
Definition admin_reset_hwid (user license : string) (ip : string)
    (userAgent : option string) : M AdminReply :=
  try_catch
    (lic ← getLicense faults license;
     match (lic : option License) with
     | Some lic =>
         saveLicense faults license (reset_license now "HWID_RESET_BY_ADMIN" user lic);;
         logActivity faults now "HWID_RESET" ("License: " +:+ license) ip userAgent
     | None => mret ()
     end;;
     mret Redirected)
    (mret AlertError).

(** [GET /api/license-info] *)
Definition api_license_info (q : option string) : M InfoReply :=
  if negb (truthy q) then mret InfoNotFound else
  let license := default "" q in
  try_catch
    (lic ← getLicense faults license;
     match (lic : option License) with
     | None => mret InfoNotFound
     | Some lic => mret (InfoStatus (license_status now lic) lic)
     end)
    (mret InfoFailed).

(** [requireLogin]: [next] runs only for the admin's session; [None] is the
    redirect to the login page. *)
Definition requireLogin {A : Type} (session : option string) (next : M A) : M (option A) :=
  if strict_eq session ADMIN_USERNAME then (a ← next; mret (Some a)) else mret None.

(** [POST /admin/login]: the reply and [req.session.user] afterwards. *)
Definition admin_login (session username password : option string) (ip : string)
    (userAgent : option string) : M (LoginReply * option string) :=
  let ok := strict_eq username ADMIN_USERNAME && strict_eq password ADMIN_PASSWORD in
  let session' := if ok then Some ADMIN_USERNAME else session in
  try_catch
    (if ok then
       logActivity faults now "ADMIN_LOGIN_SUCCESS" "Admin logged in" ip userAgent;;
       mret (LoginToAdmin, session')
     else
       logActivity faults now "ADMIN_LOGIN_FAILED"
         ("Failed login attempt for: " +:+ default "undefined" username) ip userAgent;;
       mret (LoginInvalid, session'))
    (mret (LoginServerError, session')).

(** [GET /admin/logout]: the session is destroyed on both paths. *)
Definition admin_logout (ip : string) (userAgent : option string) : M (option string) :=
  try_catch
    (logActivity faults now "ADMIN_LOGOUT" "Admin logged out" ip userAgent;;
     mret None)
    (mret None).

End MoreHandlers.

(** ** Handlers that delete licenses or use the reset-request collection *)

(** A document of [hwidRequests], as [addHwidRequest] writes it. *)
Record HwidRequest := mkHwidRequest {
  rq_license : string;
  rq_hwid : string;
  rq_reason : string;
  rq_requestIP : string;
  rq_userAgent : string;
  rq_status : string
}.

(** The store accesses of these handlers beyond those of [StoreOp]. *)
Inductive DeskOp :=
  | OpDeleteLicense (licenseKey : string)
  | OpAddHwidRequest
  | OpDeleteHwidRequest (requestId : string).

(** The state of the first part together with the [hwidRequests] collection
    and the further accesses attempted. *)
Record Desk := mkDesk {
  world : World;
  hwidRequests : gmap string HwidRequest;
  desk_trace : list DeskOp
}.

Definition D (A : Type) : Type := Desk → Result A * Desk.

#[global] Instance D_ret : MRet D := λ A a s, (Ok a, s).

#[global] Instance D_bind : MBind D := λ A B f m s,
  match m s with
  | (Ok a, s') => f a s'
  | (Thrown, s') => (Thrown, s')
  end.

Definition throwD {A : Type} : D A := λ s, (Thrown, s).

Definition try_catchD {A : Type} (m h : D A) : D A := λ s,
  match m s with
  | (Ok a, s') => (Ok a, s')
  | (Thrown, s') => h s'
  end.

(** A computation of the first part, run on the [world] component. *)
Definition lift {A : Type} (m : M A) : D A := λ s,
  match m (world s) with
  | (r, w) => (r, mkDesk w (hwidRequests s) (desk_trace s))
  end.

Definition getsD {A : Type} (f : gmap string HwidRequest → A) : D A := λ s,
  (Ok (f (hwidRequests s)), s).

Definition modifyD (f : gmap string HwidRequest → gmap string HwidRequest) : D () := λ s,
  (Ok (), mkDesk (world s) (f (hwidRequests s)) (desk_trace s)).

(** Replies of [POST /api/request-hwid-reset]: status 400, the JSON
    [{status: 'REQUESTED', requestId}] ([None] is a [null] id), status 500. *)
Inductive ResetReply :=
  | MissingFields
  | Requested (requestId : option string)
  | InternalError.

Section DeskHandlers.

Variable faults : StoreOp → bool.
(** The further accesses that fail during the request. *)
Variable dfaults : DeskOp → bool.
Variable now : Z.
(** The identifier Firestore picks for an added document. *)
Variable auto_id : string.

Definition accessD (op : DeskOp) : D () := λ s,
  let s' := mkDesk (world s) (hwidRequests s) (desk_trace s ++ [op]) in
  if dfaults op then (Thrown, s') else (Ok (), s').

Definition deleteLicense (licenseKey : string) : D bool :=
  try_catchD
    (accessD (OpDeleteLicense licenseKey);;
     lift (modify (λ d, set_licenses (delete licenseKey (licenses d)) d));;
     mret true)
    (mret false).

(** [add] creates the document under a new identifier and is rejected when
    that identifier is taken. *)
Definition addHwidRequest (license hwid' reason requestIP userAgent : string)
    : D (option string) :=
  try_catchD
    (accessD OpAddHwidRequest;;
     taken ← getsD (λ m, bool_decide (is_Some (m !! auto_id)));
     (if (taken : bool) then throwD else
        modifyD (insert auto_id
                   (mkHwidRequest license hwid' reason requestIP userAgent "pending")));;
     mret (Some auto_id))
    (mret None).

Definition deleteHwidRequest (requestId : string) : D bool :=
  try_catchD
    (accessD (OpDeleteHwidRequest requestId);;
     modifyD (delete requestId);;
     mret true)
    (mret false).

(** [POST /api/request-hwid-reset] *)
Definition api_request_hwid_reset (body_license body_hwid body_reason : option string)
    (ip : string) (userAgent : option string) : D ResetReply :=
  if negb (truthy body_license) || negb (truthy body_hwid) then mret MissingFields else
  let license := default "" body_license in
  let hwid' := default "" body_hwid in
  try_catchD
    (requestId ← addHwidRequest license hwid'
                   (or_default body_reason "No reason provided") ip
                   (or_default userAgent "Unknown");
     lift (logActivity faults now "HWID_RESET_REQUEST"
             ("License: " +:+ license +:+ " HWID: " +:+ hwid' +:+ " RequestID: " +:+
              default "null" requestId)
             ip None);;
     mret (Requested requestId))
    (mret InternalError).

(** [POST /admin/delete-license]; [license] is the body field, taken
    present. *)
Definition admin_delete_license (license : string) (ip : string)
    (userAgent : option string) : D AdminReply :=
  try_catchD
    (deleteLicense license;;
     lift (logActivity faults now "LICENSE_DELETED" ("License: " +:+ license) ip userAgent);;
     mret Redirected)
    (mret AlertError).

(** [POST /admin/approve-hwid-reset]; both body fields taken present. *)
Definition admin_approve_hwid_reset (user requestId license : string) (ip : string)
    (userAgent : option string) : D AdminReply :=
  try_catchD
    (lic ← lift (getLicense faults license);
     match (lic : option License) with
     | Some lic =>
         lift (saveLicense faults license
                 (reset_license now "HWID_RESET_APPROVED" user lic));;
         lift (logActivity faults now "HWID_RESET_APPROVED"
                 ("License: " +:+ license +:+ " RequestID: " +:+ requestId) ip userAgent)
     | None => mret ()
     end;;
     deleteHwidRequest requestId;;
     mret Redirected)
    (mret AlertError).

(** [POST /admin/deny-hwid-reset] *)
Definition admin_deny_hwid_reset (requestId : string) (ip : string)
    (userAgent : option string) : D AdminReply :=
  try_catchD
    (lift (logActivity faults now "HWID_RESET_DENIED" ("RequestID: " +:+ requestId)
             ip userAgent);;
     deleteHwidRequest requestId;;
     mret Redirected)
    (mret AlertError).

End DeskHandlers.

(** Running such a handler on a database and a request collection. *)
Definition runD {A : Type} (m : D A) (d : Db) (reqs : gmap string HwidRequest)
    : Result A * Desk :=
  m (mkDesk (mkWorld d [] 0) reqs []).

(** ** Notions used to state the further properties *)

(** What a handler may not change in a record: [b] has the expiry, creation
    data and batch of [a], and a history that extends that of [a]. *)
Definition record_kept (a b : License) : Prop :=
  expiry b = expiry a ∧ createdAt b = createdAt a ∧ createdBy b = createdBy a ∧
  batchId b = batchId a ∧
  default [] (history a) `prefix_of` default [] (history b).

(** No non-empty HWID is bound to two licenses. *)
Definition hwids_unique (m : gmap string License) : Prop :=
  ∀ k1 k2 r1 r2 h,
    m !! k1 = Some r1 → m !! k2 = Some r2 →
    hwid r1 = Some h → hwid r2 = Some h → h ≠ "" → k1 = k2.

(** The records the dashboard counts as active, as expired and as recently
    seen. *)
Definition counted_active (now : Z) (lic : License) : Prop :=
  truthy (hwid lic) = true ∧ isLicenseExpired now lic = false.

Definition counted_expired (now : Z) (lic : License) : Prop :=
  truthy (hwid lic) = true ∧ isLicenseExpired now lic = true.

Definition counted_recent (now : Z) (lic : License) : Prop :=
  ∃ t, lastValidated lic = Some t ∧ (t > now - 86400000)%Z.

#[global] Instance counted_active_dec now lic : Decision (counted_active now lic).
Proof. unfold counted_active. apply _. Defined.

#[global] Instance counted_expired_dec now lic : Decision (counted_expired now lic).
Proof. unfold counted_expired. apply _. Defined.

#[global] Instance counted_recent_dec now lic : Decision (counted_recent now lic).
Proof.
  unfold counted_recent. destruct (lastValidated lic) as [t|].
  - destruct (decide (t > now - 86400000)%Z) as [H|H].
    + left. by exists t.
    + right. intros (t' & [= <-] & H'). done.
  - right. by intros (t & [=] & _).
Defined.

(** The characters [0-9A-F]. *)
Definition is_upper_hex (c : Ascii.ascii) : bool :=
  let n := Ascii.N_of_ascii c in
  (((48 <=? n) && (n <=? 57)) || ((65 <=? n) && (n <=? 70)))%N.

Fixpoint all_upper_hex (s : string) : bool :=
  match s with
  | EmptyString => true
  | String c s' => is_upper_hex c && all_upper_hex s'
  end.

(** The value of a character of [0-9A-F]. *)
Definition nibble_of (c : Ascii.ascii) : N :=
  let n := Ascii.N_of_ascii c in
  if (n <=? 57)%N then (n - 48)%N else (n - 55)%N.

(** The bytes [crypto.randomBytes(n)] returns at position [pos]. *)
Definition bytes_at (entropy : nat → N) (pos n : nat) : list N :=
  map (λ i, (entropy (pos + i)%nat mod 256)%N) (seq 0 n).

(** None of the further accesses fails. *)
Definition no_desk_faults : DeskOp → bool := λ _, false.

(** An unbound license beside one bound to H1. *)
Definition shared_db : Db :=
  mkDb (<[ "LIC-BBBB" := bound_license "H1" ]> {[ "LIC-AAAA" := new_license ]})
    None None [].

(** Only the read of all licenses fails. *)
Definition scan_fails : StoreOp → bool := λ op,
  match op with
  | OpGetLicenses => true
  | _ => false
  end.

(** Only the read of the ban list fails. *)
Definition banlist_read_fails : StoreOp → bool := λ op,
  match op with
  | OpGetBanlist => true
  | _ => false
  end.

(** ** Running the helpers *)

Lemma bind_run {A B : Type} (m : M A) (k : A → M B) (w : World) :
  (m ≫= k) w =
  match m w with
  | (Ok a, w') => k a w'
  | (Thrown, w') => (Thrown, w')
  end.
Proof. reflexivity. Qed.

Lemma ret_run {A : Type} (a : A) (w : World) : (mret a : M A) w = (Ok a, w).
Proof. reflexivity. Qed.

Lemma logActivity_run f now a dt i ua w :
  logActivity f now a dt i ua w =
  (Ok (),
   if f OpLogActivity then traced OpLogActivity w
   else with_db (add_log (mkLogEntry a dt i (default "unknown" ua) now))
          (traced OpLogActivity w)).
Proof.
  unfold logActivity, try_catch, access. rewrite bind_run.
  destruct (f OpLogActivity); reflexivity.
Qed.

Lemma getSettings_run f w :
  getSettings f w =
  (Ok (if f OpGetSettings then empty_settings
       else default default_settings (settings (db w))),
   traced OpGetSettings w).
Proof.
  unfold getSettings, try_catch, access. rewrite bind_run.
  destruct (f OpGetSettings); reflexivity.
Qed.

Lemma getBanlist_run f w :
  getBanlist f w =
  (Ok (if f OpGetBanlist then Hwids [] else hwids_of (banlist (db w))),
   traced OpGetBanlist w).
Proof.
  unfold getBanlist, try_catch, access. rewrite bind_run.
  destruct (f OpGetBanlist); reflexivity.
Qed.

Lemma getLicense_run f k w :
  getLicense f k w =
  (Ok (if f (OpGetLicense k) then None else licenses (db w) !! k),
   traced (OpGetLicense k) w).
Proof.
  unfold getLicense, try_catch, access. rewrite bind_run.
  destruct (f (OpGetLicense k)); reflexivity.
Qed.

Lemma getLicenses_run f w :
  getLicenses f w =
  (Ok (if f OpGetLicenses then ∅ else licenses (db w)),
   traced OpGetLicenses w).
Proof.
  unfold getLicenses, try_catch, access. rewrite bind_run.
  destruct (f OpGetLicenses); reflexivity.
Qed.

Lemma saveLicense_run f k data w :
  saveLicense f k data w =
  (Ok (negb (f (OpSaveLicense k))),
   if f (OpSaveLicense k) then traced (OpSaveLicense k) w
   else with_db (write_license k data) (traced (OpSaveLicense k) w)).
Proof.
  unfold saveLicense, try_catch, access. rewrite bind_run.
  destruct (f (OpSaveLicense k)); reflexivity.
Qed.

Lemma saveBanlist_run f b w :
  saveBanlist f b w =
  (Ok (negb (f OpSaveBanlist)),
   if f OpSaveBanlist then traced OpSaveBanlist w
   else with_db (set_banlist (Some (Some b))) (traced OpSaveBanlist w)).
Proof.
  unfold saveBanlist, try_catch, access. rewrite bind_run.
  destruct (f OpSaveBanlist); reflexivity.
Qed.

Create Rewrite HintDb store.
#[global] Hint Rewrite @bind_run @ret_run logActivity_run getSettings_run
  getBanlist_run getLicense_run getLicenses_run saveLicense_run
  saveBanlist_run : store.

(** Runs a handler through its helper calls, as far as the data allows. *)
Ltac run_helpers :=
  unfold try_catch; cbn; repeat (progress autorewrite with store; cbn).

Lemma well_formed_guard req license candidate :
  well_formed req license candidate →
  negb (truthy (q_license req)) || negb (truthy (q_hwid req)) = false ∧
  default "" (q_license req) = license ∧
  default "" (q_hwid req) = candidate.
Proof.
  intros (Hl & Hl' & Hh & Hh'). rewrite Hl, Hh. cbn.
  rewrite !bool_decide_eq_false_2 by done. done.
Qed.

(** ** Expiration *)

(** C8. [isLicenseExpired] is false for a record without an expiry (absent or
    [null]: it never expires), false when the clock reads exactly the expiry,
    and true exactly when the clock is strictly after the expiry. *)
Theorem isLicenseExpired_strict (now : Z) (lic : License) :
  (expiry lic = None ∨ expiry lic = Some ExpiryNull →
   isLicenseExpired now lic = false) ∧
  (expiry lic = Some (ExpiryDate now) → isLicenseExpired now lic = false) ∧
  (isLicenseExpired now lic = true ↔
   ∃ t, expiry lic = Some (ExpiryDate t) ∧ (now > t)%Z).
Proof.
  unfold isLicenseExpired. split; [|split].
  - intros [-> | ->]; reflexivity.
  - intros ->. case_bool_decide; [lia | reflexivity].
  - split.
    + destruct (expiry lic) as [[| t |]|]; try discriminate.
      intros H. exists t. split; [reflexivity|]. by case_bool_decide.
    + intros (t & -> & Ht). by case_bool_decide.
Qed.

(** ** Missing input *)

(** C9. When the license key or the hwid is missing or empty, validate and
    register answer FAILED whatever the store contains and whichever store
    accesses would fail; no store access is attempted and the database,
    activity log included, is left as it was. *)
Theorem missing_input_failed (f : StoreOp → bool) (now : Z) (req : Request) (d : Db) :
  q_license req = None ∨ q_license req = Some "" ∨
  q_hwid req = None ∨ q_hwid req = Some "" →
  (let r := run (api_validate f now req) d in
   r.1 = Ok FAILED ∧ db r.2 = d ∧ trace r.2 = []) ∧
  (let r := run (api_register f now req) d in
   r.1 = Ok FAILED ∧ db r.2 = d ∧ trace r.2 = []).
Proof.
  intros H.
  assert (negb (truthy (q_license req)) || negb (truthy (q_hwid req)) = true) as G.
  { destruct H as [-> | [-> | [-> | ->]]]; cbn; auto using orb_true_r. }
  unfold run, api_validate, api_register. rewrite G. cbn. done.
Qed.

Lemma missing_input_failed_witness :
  let req := mkRequest (Some "LIC-AAAA") None "10.0.0.1" None in
  let d := mkDb ∅ (Some (Some (Hwids ["H1"]))) None [] in
  (let r := run (api_validate (λ _, true) 7 req) d in
   r.1 = Ok FAILED ∧ db r.2 = d ∧ trace r.2 = []) ∧
  (let r := run (api_register (λ _, true) 7 req) d in
   r.1 = Ok FAILED ∧ db r.2 = d ∧ trace r.2 = []).
Proof.
  apply (missing_input_failed (λ _, true) 7
           (mkRequest (Some "LIC-AAAA") None "10.0.0.1" None)).
  right; right; left; reflexivity.
Defined.

(** ** Validation *)

Lemma merge_set_lastValidated t lic :
  merge_license lic (set_lastValidated t lic) = set_lastValidated t lic.
Proof.
  destruct lic as [a b c d e f g h i j]. unfold merge_license, set_lastValidated. cbn.
  f_equal; match goal with |- from_option Some ?x ?x = ?x => by destruct x end.
Qed.

Lemma write_license_update k t lic d :
  licenses d !! k = Some lic →
  licenses (write_license k (set_lastValidated t lic) d) =
  <[k := set_lastValidated t lic]> (licenses d).
Proof.
  intros H. unfold write_license. rewrite H, merge_set_lastValidated. reflexivity.
Qed.

(** What [/api/validate] does on a store that answers, for well-formed
    input and a ban list that is a list. *)
Lemma api_validate_reliable now req license h d bans :
  well_formed req license h →
  hwids_of (banlist d) = Hwids bans →
  let r := run (api_validate reliable now req) d in
  r.1 = Ok (spec_validate (api_enabled d) bans (licenses d !! license) now h) ∧
  licenses (db r.2) =
    match spec_validate (api_enabled d) bans (licenses d !! license) now h,
          licenses d !! license with
    | VALID, Some lic => <[license := set_lastValidated now lic]> (licenses d)
    | _, _ => licenses d
    end.
Proof.
  intros Hwf Hb r. subst r. destruct (well_formed_guard _ _ _ Hwf) as (G & Hl & Hh).
  unfold run, api_validate, spec_validate, api_enabled, isHWIDBanned, includes, strict_eq.
  rewrite G, Hl, Hh. run_helpers.
  destruct (truthy_flag _); [|done]. run_helpers. rewrite Hb. run_helpers.
  destruct (bool_decide (h ∈ bans)); [done|]. run_helpers.
  destruct (licenses d !! license) as [lic|] eqn:Hlic; [|done].
  destruct (isLicenseExpired now lic); [done|].
  destruct (bool_decide (hwid lic = Some h)); [|done]. run_helpers.
  split; [done|]. by rewrite write_license_update.
Qed.

Lemma unbound_not_candidate lic h :
  unbound lic → h ≠ "" → bool_decide (hwid lic = Some h) = false.
Proof.
  unfold unbound, truthy. intros Hu Hh. apply bool_decide_eq_false_2. intros E.
  rewrite E in Hu. by rewrite bool_decide_eq_false_2 in Hu.
Qed.

(** C1. For non-empty key and hwid, on a store that answers, [/api/validate]
    decides in the order of the specification: API_DISABLED when the API flag
    is off, else BANNED when the hwid is in the ban list, else
    INVALID_LICENSE when the key has no record, else EXPIRED, else VALID when
    the bound hwid is the candidate, otherwise HWID_MISMATCH.  On VALID the
    stored record gets [lastValidated] set to the clock reading and nothing
    else changes; an unbound record is never VALID and, past the four
    earlier checks,
    is HWID_MISMATCH; the [hwid] field of every record is left as it was. *)
Theorem validate_decision_order (now : Z) (req : Request) (license h : string)
    (d : Db) (bans : list string) :
  well_formed req license h →
  hwids_of (banlist d) = Hwids bans →
  let r := run (api_validate reliable now req) d in
  r.1 = Ok (spec_validate (api_enabled d) bans (licenses d !! license) now h) ∧
  (r.1 = Ok VALID →
   ∃ lic, licenses d !! license = Some lic ∧ hwid lic = Some h ∧
          lastValidated (set_lastValidated now lic) = Some now ∧
          licenses (db r.2) = <[license := set_lastValidated now lic]> (licenses d)) ∧
  (∀ lic, licenses d !! license = Some lic → unbound lic →
          r.1 ≠ Ok VALID ∧
          (api_enabled d = true → h ∉ bans → isLicenseExpired now lic = false →
           r.1 = Ok HWID_MISMATCH)) ∧
  (∀ k, hwid <$> licenses (db r.2) !! k = hwid <$> licenses d !! k).
Proof.
  intros Hwf Hb r.
  destruct (api_validate_reliable now req license h d bans Hwf Hb) as [E1 E2].
  fold r in E1, E2. rewrite E1. clear E1.
  assert (h ≠ "") as Hh by apply Hwf.
  split; [reflexivity|]. split; [|split].
  - intros [= Hv]. rewrite Hv in E2. unfold spec_validate in Hv.
    destruct (api_enabled d); [|done]. cbn [negb] in Hv.
    destruct (bool_decide (h ∈ bans)); [done|].
    destruct (licenses d !! license) as [lic|]; [|done].
    destruct (isLicenseExpired now lic); [done|].
    destruct (bool_decide_reflect (hwid lic = Some h)); [|done].
    by exists lic.
  - intros lic Hlic Hu. unfold spec_validate. rewrite Hlic.
    rewrite (unbound_not_candidate lic h Hu Hh). split.
    + by repeat case_match.
    + intros -> Hin ->. cbn [negb]. by rewrite bool_decide_eq_false_2.
  - intros k. rewrite E2.
    destruct (spec_validate _ _ _ _ _) eqn:Hv; try done.
    destruct (licenses d !! license) as [lic|] eqn:Hlic; [|done].
    destruct (decide (license = k)) as [<-|Hne].
    + by rewrite lookup_insert_eq, Hlic.
    + by rewrite lookup_insert_ne.
Qed.

Lemma hwid_write_lastValidated k k' t lic d :
  licenses d !! k = Some lic →
  hwid <$> licenses (write_license k (set_lastValidated t lic) d) !! k' =
  hwid <$> licenses d !! k'.
Proof.
  intros H. rewrite write_license_update by done.
  destruct (decide (k = k')) as [<-|Hne].
  - by rewrite lookup_insert_eq, H.
  - by rewrite lookup_insert_ne.
Qed.

(** Validation binds nothing, whatever the request, the store content and
    the failing accesses: the [hwid] field of every record is as before. *)
Lemma validate_never_binds f now req d k :
  hwid <$> licenses (db (run (api_validate f now req) d).2) !! k =
  hwid <$> licenses d !! k.
Proof.
  unfold run, api_validate, isHWIDBanned, includes.
  destruct (negb (truthy (q_license req)) || negb (truthy (q_hwid req))); [done|].
  run_helpers.
  destruct (f OpLogActivity), (f OpGetSettings); cbn; try done.
  all: destruct (truthy_flag _); cbn; try done.
  all: run_helpers.
  all: destruct (f OpGetBanlist); [|destruct (hwids_of _); [| |done]].
  all: run_helpers.
  all: destruct (bool_decide _); [done|]; run_helpers.
  all: destruct (f (OpGetLicense _)); [done|].
  all: destruct (licenses d !! _) as [lic|] eqn:Hlic; [|done].
  all: destruct (isLicenseExpired now lic); [done|].
  all: destruct (strict_eq _ _); [|done].
  all: run_helpers.
  all: destruct (f (OpSaveLicense _)); [done|]; cbn.
  all: by rewrite hwid_write_lastValidated.
Qed.

(** ** Registration *)

(** The test [lic.hwid && lic.hwid !== hwid] holds exactly when a different
    non-empty HWID is bound. *)
Lemma bound_to_other_test lic h :
  truthy (hwid lic) && negb (strict_eq (hwid lic) h) = true ↔ bound_to_other lic h.
Proof.
  unfold bound_to_other, truthy, strict_eq. split.
  - destruct (hwid lic) as [h0|]; [|done]. intros [H1 H2]%andb_true_iff.
    exists h0. apply negb_true_iff in H1, H2.
    apply bool_decide_eq_false in H1, H2. split; [done|]. split; [done|congruence].
  - intros (h0 & -> & H1 & H2). apply andb_true_iff.
    by rewrite !bool_decide_eq_false_2 by congruence.
Qed.

Lemma hwid_in_use_elem entries license h :
  hwid_in_use entries license h = true ↔
  ∃ k r, (k, r) ∈ entries ∧ k ≠ license ∧ hwid r = Some h.
Proof.
  induction entries as [|[k r] rest IH]; cbn.
  - split; [done|]. intros (k & r & Hin & _). by apply elem_of_nil in Hin.
  - unfold strict_eq.
    destruct (bool_decide_reflect (hwid r = Some h)) as [Hh|Hh];
      destruct (bool_decide_reflect (k = license)) as [Hk|Hk]; cbn.
    all: try (rewrite IH; split;
      [ intros (k' & r' & Hin & H1 & H2); exists k', r'; split; [by right|done]
      | intros (k' & r' & Hin & H1 & H2);
        apply elem_of_cons in Hin as [[= -> ->]|Hin]; [done|by exists k', r'] ]).
    split; [|done]. intros _. exists k, r. split; [by left|done].
Qed.

(** The scan of [/api/register] finds a conflict exactly when another record
    of the store holds the candidate HWID. *)
Lemma hwid_in_use_spec (m : gmap string License) license h :
  hwid_in_use (map_to_list m) license h = true ↔ held_elsewhere m license h.
Proof.
  rewrite hwid_in_use_elem. unfold held_elsewhere.
  split; intros (k & r & H1 & H2 & H3); exists k, r.
  - by apply elem_of_map_to_list in H1.
  - split; [by apply elem_of_map_to_list|done].
Qed.

Lemma merge_registered now lic h req :
  merge_license lic (registered now lic h req) = registered now lic h req.
Proof.
  destruct lic as [a b c d e f g i j k]. unfold merge_license, registered. cbn.
  f_equal; match goal with |- from_option Some ?x ?x = ?x => by destruct x end.
Qed.

Lemma write_license_registered k now lic h req d :
  licenses d !! k = Some lic →
  licenses (write_license k (registered now lic h req) d) =
  <[k := registered now lic h req]> (licenses d).
Proof.
  intros H. unfold write_license. rewrite H, merge_registered. reflexivity.
Qed.

Lemma write_license_banlist k data d :
  banlist (write_license k data d) = banlist d.
Proof. unfold write_license. by destruct (licenses d !! k). Qed.

Lemma write_license_settings k data d :
  settings (write_license k data d) = settings d.
Proof. unfold write_license. by destruct (licenses d !! k). Qed.

(** What [/api/register] does on a store that answers, for well-formed
    input and a ban list that is a list. *)
Lemma api_register_reliable now req license h d bans :
  well_formed req license h →
  hwids_of (banlist d) = Hwids bans →
  let r := run (api_register reliable now req) d in
  r.1 = Ok (register_on d bans license now h) ∧
  licenses (db r.2) =
    match register_on d bans license now h, licenses d !! license with
    | SUCCESS, Some lic => <[license := registered now lic h req]> (licenses d)
    | _, _ => licenses d
    end ∧
  banlist (db r.2) = banlist d ∧
  settings (db r.2) = settings d.
Proof.
  intros Hwf Hb r. subst r. destruct (well_formed_guard _ _ _ Hwf) as (G & Hl & Hh).
  unfold run, api_register, register_on, register_decision, api_enabled, isHWIDBanned,
    includes.
  rewrite G, Hl, Hh. run_helpers.
  destruct (truthy_flag _); [|done]. run_helpers. rewrite Hb. run_helpers.
  destruct (bool_decide (h ∈ bans)); [done|]. run_helpers.
  destruct (licenses d !! license) as [lic|] eqn:Hlic; [|done].
  destruct (isLicenseExpired now lic); [done|].
  destruct (truthy (hwid lic) && negb (strict_eq (hwid lic) h)); [done|]. run_helpers.
  destruct (hwid_in_use _ _ _); [done|]. run_helpers.
  split; [done|]. rewrite write_license_registered by done.
  by rewrite write_license_banlist, write_license_settings.
Qed.

Lemma held_elsewhere_insert (m : gmap string License) k x h :
  held_elsewhere (<[k := x]> m) k h ↔ held_elsewhere m k h.
Proof.
  unfold held_elsewhere. split; intros (k' & r & Hne & Hk & Hr); exists k', r.
  - by rewrite lookup_insert_ne in Hk.
  - by rewrite lookup_insert_ne.
Qed.

Lemma register_on_success d bans license now h :
  register_on d bans license now h = SUCCESS →
  api_enabled d = true ∧ (h ∉ bans) ∧
  ∃ lic, licenses d !! license = Some lic ∧ isLicenseExpired now lic = false ∧
         ¬ bound_to_other lic h ∧ ¬ held_elsewhere (licenses d) license h.
Proof.
  unfold register_on, register_decision. destruct (api_enabled d); [|done]. cbn [negb].
  destruct (bool_decide_reflect (h ∈ bans)); [done|].
  destruct (licenses d !! license) as [lic|]; [|done].
  destruct (isLicenseExpired now lic) eqn:He; [done|].
  destruct (truthy (hwid lic) && negb (strict_eq (hwid lic) h)) eqn:Hb; [done|].
  destruct (hwid_in_use (map_to_list (licenses d)) license h) eqn:Hu; [done|].
  intros _. split; [done|]. split; [done|]. exists lic.
  do 2 (split; [done|]). split.
  - intros Ho%bound_to_other_test. congruence.
  - intros Ho%hwid_in_use_spec. congruence.
Qed.

Lemma register_on_passed d bans license now h lic :
  api_enabled d = true → h ∉ bans → licenses d !! license = Some lic →
  isLicenseExpired now lic = false →
  register_on d bans license now h =
  if truthy (hwid lic) && negb (strict_eq (hwid lic) h) then ALREADY_REGISTERED
  else if hwid_in_use (map_to_list (licenses d)) license h then HWID_IN_USE
  else SUCCESS.
Proof.
  intros Ha Hb Hl He. unfold register_on, register_decision. rewrite Ha. cbn [negb].
  by rewrite bool_decide_eq_false_2, Hl, He.
Qed.

(** C2. A register call with non-empty key and hwid that passes the
    API-disabled, banned, missing-record and expired checks answers
    ALREADY_REGISTERED when the record has a different non-empty HWID bound;
    else HWID_IN_USE when another record of the store holds the hwid; else
    SUCCESS, and then the stored record has the hwid bound, [activatedAt] and
    [lastValidated] at the clock reading, the caller's IP and device info
    recorded, and one REGISTER entry appended to its history. *)
Theorem register_outcomes (now : Z) (req : Request) (license h : string)
    (d : Db) (bans : list string) (lic : License) :
  well_formed req license h →
  hwids_of (banlist d) = Hwids bans →
  api_enabled d = true →
  h ∉ bans →
  licenses d !! license = Some lic →
  isLicenseExpired now lic = false →
  let r := run (api_register reliable now req) d in
  (bound_to_other lic h → r.1 = Ok ALREADY_REGISTERED) ∧
  (¬ bound_to_other lic h → held_elsewhere (licenses d) license h →
   r.1 = Ok HWID_IN_USE) ∧
  (¬ bound_to_other lic h → ¬ held_elsewhere (licenses d) license h →
   r.1 = Ok SUCCESS ∧
   ∃ lic', licenses (db r.2) !! license = Some lic' ∧
     hwid lic' = Some h ∧
     activatedAt lic' = Some (At now) ∧
     lastValidated lic' = Some now ∧
     activationIP lic' = Some (req_ip req) ∧
     deviceInfo lic' = Some (or_default (req_userAgent req) "Unknown") ∧
     history lic' =
       Some (default [] (history lic) ++
             [mkHistoryEntry "REGISTER" now (Some h) (Some (req_ip req)) None])).
Proof.
  intros Hwf Hb He Hban Hlic Hexp r.
  destruct (api_register_reliable now req license h d bans Hwf Hb) as (E1 & E2 & _).
  fold r in E1, E2. rewrite (register_on_passed _ _ _ _ _ lic) in E1, E2 by done.
  rewrite Hlic in E2. rewrite E1. clear E1.
  destruct (truthy (hwid lic) && negb (strict_eq (hwid lic) h)) eqn:Ho.
  { apply bound_to_other_test in Ho. done. }
  assert (¬ bound_to_other lic h) as Hno.
  { intros Hx%bound_to_other_test. congruence. }
  destruct (hwid_in_use (map_to_list (licenses d)) license h) eqn:Hu.
  { apply hwid_in_use_spec in Hu. done. }
  assert (¬ held_elsewhere (licenses d) license h) as Hnu.
  { intros Hx%hwid_in_use_spec. congruence. }
  split; [done|]. split; [done|]. intros _ _. split; [done|].
  exists (registered now lic h req). rewrite E2, lookup_insert_eq. done.
Qed.

(** C3. Global uniqueness: once register(k1, h) has answered SUCCESS, a
    register(k2, h) on the resulting store for another existing, unbound,
    non-expired license k2 answers HWID_IN_USE. *)
Theorem hwid_globally_unique (now1 now2 : Z) (req1 req2 : Request)
    (k1 k2 h : string) (d : Db) (bans : list string) (lic2 : License) :
  well_formed req1 k1 h →
  well_formed req2 k2 h →
  hwids_of (banlist d) = Hwids bans →
  let r1 := run (api_register reliable now1 req1) d in
  r1.1 = Ok SUCCESS →
  k2 ≠ k1 →
  licenses (db r1.2) !! k2 = Some lic2 →
  unbound lic2 →
  isLicenseExpired now2 lic2 = false →
  (run (api_register reliable now2 req2) (db r1.2)).1 = Ok HWID_IN_USE.
Proof.
  intros Hwf1 Hwf2 Hb r1 Hs Hne Hl2 Hu Hexp.
  destruct (api_register_reliable now1 req1 k1 h d bans Hwf1 Hb) as (E1 & E2 & E3 & E4).
  fold r1 in E1, E2, E3, E4. rewrite Hs in E1. injection E1 as E1. symmetry in E1.
  rewrite E1 in E2.
  destruct (register_on_success _ _ _ _ _ E1) as (He & Hban & lic1 & Hl1 & _).
  rewrite Hl1 in E2.
  assert (hwids_of (banlist (db r1.2)) = Hwids bans) as Hb' by by rewrite E3.
  destruct (api_register_reliable now2 req2 k2 h (db r1.2) bans Hwf2 Hb') as (F1 & _).
  rewrite F1. f_equal.
  assert (api_enabled (db r1.2) = true) as He'.
  { unfold api_enabled in *. by rewrite E4. }
  rewrite (register_on_passed _ _ _ _ _ lic2) by done.
  unfold unbound in Hu. rewrite Hu. cbn [andb].
  assert (hwid_in_use (map_to_list (licenses (db r1.2))) k2 h = true) as ->; [|done].
  apply hwid_in_use_spec. exists k1, (registered now1 lic1 h req1).
  split; [done|]. by rewrite E2, lookup_insert_eq.
Qed.

Lemma registered_not_bound_to_other now lic h req :
  ¬ bound_to_other (registered now lic h req) h.
Proof. intros (h0 & [= <-] & _ & Hne). done. Qed.

(** C4. Registering the same device again: when the record of [k] is bound
    to [h] or unbound, no other license holds [h], and the checks pass at both
    clock readings, two register(k, h) calls in sequence both answer SUCCESS;
    after the second one [activatedAt] and [lastValidated] carry the later
    clock reading and the history has grown by exactly one REGISTER entry per
    call. *)
Theorem register_same_device_again (now1 now2 : Z) (req1 req2 : Request)
    (k h : string) (d : Db) (bans : list string) (lic : License) :
  well_formed req1 k h →
  well_formed req2 k h →
  hwids_of (banlist d) = Hwids bans →
  api_enabled d = true →
  h ∉ bans →
  licenses d !! k = Some lic →
  ¬ bound_to_other lic h →
  ¬ held_elsewhere (licenses d) k h →
  isLicenseExpired now1 lic = false →
  isLicenseExpired now2 lic = false →
  let r1 := run (api_register reliable now1 req1) d in
  let r2 := run (api_register reliable now2 req2) (db r1.2) in
  r1.1 = Ok SUCCESS ∧ r2.1 = Ok SUCCESS ∧
  ∃ lic1 lic2,
    licenses (db r1.2) !! k = Some lic1 ∧
    licenses (db r2.2) !! k = Some lic2 ∧
    hwid lic1 = Some h ∧ hwid lic2 = Some h ∧
    activatedAt lic2 = Some (At now2) ∧
    lastValidated lic2 = Some now2 ∧
    history lic1 =
      Some (default [] (history lic) ++
            [mkHistoryEntry "REGISTER" now1 (Some h) (Some (req_ip req1)) None]) ∧
    history lic2 =
      Some ((default [] (history lic) ++
             [mkHistoryEntry "REGISTER" now1 (Some h) (Some (req_ip req1)) None]) ++
            [mkHistoryEntry "REGISTER" now2 (Some h) (Some (req_ip req2)) None]).
Proof.
  intros Hwf1 Hwf2 Hb He Hban Hlic Hno Hnu Hx1 Hx2 r1 r2.
  destruct (api_register_reliable now1 req1 k h d bans Hwf1 Hb) as (E1 & E2 & E3 & E4).
  fold r1 in E1, E2, E3, E4.
  assert (register_on d bans k now1 h = SUCCESS) as S1.
  { rewrite (register_on_passed _ _ _ _ _ lic) by done.
    destruct (truthy (hwid lic) && negb (strict_eq (hwid lic) h)) eqn:Ho.
    { by apply bound_to_other_test in Ho. }
    destruct (hwid_in_use (map_to_list (licenses d)) k h) eqn:Hu; [|done].
    by apply hwid_in_use_spec in Hu. }
  rewrite S1 in E1, E2. rewrite Hlic in E2.
  assert (hwids_of (banlist (db r1.2)) = Hwids bans) as Hb' by by rewrite E3.
  destruct (api_register_reliable now2 req2 k h (db r1.2) bans Hwf2 Hb') as (F1 & F2 & _).
  fold r2 in F1, F2.
  assert (api_enabled (db r1.2) = true) as He' by (unfold api_enabled; by rewrite E4).
  assert (licenses (db r1.2) !! k = Some (registered now1 lic h req1)) as Hlic'.
  { by rewrite E2, lookup_insert_eq. }
  assert (register_on (db r1.2) bans k now2 h = SUCCESS) as S2.
  { rewrite (register_on_passed _ _ _ _ _ (registered now1 lic h req1)) by done.
    destruct (truthy _ && _) eqn:Ho.
    { apply bound_to_other_test in Ho. by apply registered_not_bound_to_other in Ho. }
    destruct (hwid_in_use _ _ _) eqn:Hu; [|done].
    apply hwid_in_use_spec in Hu. rewrite E2 in Hu.
    by apply held_elsewhere_insert in Hu. }
  rewrite S2 in F1, F2. rewrite Hlic' in F2.
  split; [done|]. split; [done|].
  exists (registered now1 lic h req1), (registered now2 (registered now1 lic h req1) h req2).
  split; [done|]. split; [by rewrite F2, lookup_insert_eq|]. done.
Qed.

(** ** Banned devices *)

(** C5 (amended). For a HWID of the ban list and any non-empty license key,
    existing or not, validate and register on an enabled API answer BANNED,
    and neither reads a license record: the ban check comes before the
    existence, expiry and binding checks, and after the missing-input and
    API-disabled checks. *)
Theorem banned_before_license_checks (now : Z) (req : Request) (license h : string)
    (d : Db) (bans : list string) :
  well_formed req license h →
  hwids_of (banlist d) = Hwids bans →
  api_enabled d = true →
  h ∈ bans →
  (let r := run (api_validate reliable now req) d in
   r.1 = Ok BANNED ∧ (OpGetLicense license ∉ trace r.2) ∧ (OpGetLicenses ∉ trace r.2)) ∧
  (let r := run (api_register reliable now req) d in
   r.1 = Ok BANNED ∧ (OpGetLicense license ∉ trace r.2) ∧ (OpGetLicenses ∉ trace r.2)).
Proof.
  intros Hwf Hb He Hin. destruct (well_formed_guard _ _ _ Hwf) as (G & Hl & Hh).
  unfold api_enabled in He.
  unfold run, api_validate, api_register, isHWIDBanned, includes.
  rewrite G, Hl, Hh. run_helpers. rewrite He. run_helpers. rewrite Hb. run_helpers.
  rewrite (bool_decide_eq_true_2 _ Hin). run_helpers.
  repeat split; try done; rewrite list_elem_of_In; cbn; intuition discriminate.
Qed.

(** ** Failing store accesses *)

(** A ban list that is a string bans the input when the input occurs in it:
    it decides as the list that holds the input in that case and nothing
    otherwise. *)
Lemma occurs_as_list h s :
  bool_decide (occurs_in h s) =
  bool_decide (h ∈ (if bool_decide (occurs_in h s) then [h] else [])).
Proof.
  destruct (bool_decide (occurs_in h s)).
  - by rewrite bool_decide_eq_true_2 by by apply list_elem_of_singleton.
  - by rewrite bool_decide_eq_false_2 by apply not_elem_of_nil.
Qed.

Ltac text_case h s :=
  let E := fresh "E" in
  let bans := fresh "bans" in
  run_helpers;
  pose proof (occurs_as_list h s) as E;
  set (bans := if bool_decide (occurs_in h s) then [h] else []) in *;
  rewrite E; clearbody bans; clear E.

(** The reply of [/api/validate] under any pattern of failing accesses. *)
Lemma api_validate_reply f now req license h d :
  well_formed req license h →
  (run (api_validate f now req) d).1 =
  Ok (match banlist_read f d with
      | Hwids bans =>
          spec_validate (enabled_read f d) bans (license_read f d license) now h
      | HwidsText s =>
          spec_validate (enabled_read f d)
            (if bool_decide (occurs_in h s) then [h] else [])
            (license_read f d license) now h
      | NotAList => if enabled_read f d then ERROR else API_DISABLED
      end).
Proof.
  intros Hwf. destruct (well_formed_guard _ _ _ Hwf) as (G & Hl & Hh).
  unfold run, api_validate, spec_validate, enabled_read, banlist_read, license_read,
    api_enabled, isHWIDBanned, includes, strict_eq.
  rewrite G, Hl, Hh. run_helpers.
  destruct (f OpLogActivity), (f OpGetSettings); cbn;
    try (by destruct (f OpGetBanlist), (hwids_of (banlist d))).
  all: destruct (truthy_flag _); cbn;
    [|by destruct (f OpGetBanlist), (hwids_of (banlist d))].
  all: run_helpers.
  all: destruct (f OpGetBanlist);
    [|destruct (hwids_of (banlist d)) as [bans|s|]; [|text_case h s|done]].
  all: run_helpers.
  all: destruct (bool_decide (h ∈ _)); [done|]; run_helpers.
  all: destruct (f (OpGetLicense license)); [done|].
  all: destruct (licenses d !! license) as [lic|]; [|done].
  all: destruct (isLicenseExpired now lic); [done|].
  all: destruct (bool_decide (hwid lic = Some h)); [|done].
  all: by run_helpers.
Qed.

(** The reply of [/api/register] under any pattern of failing accesses. *)
Lemma api_register_reply f now req license h d :
  well_formed req license h →
  (run (api_register f now req) d).1 =
  Ok (match banlist_read f d with
      | Hwids bans =>
          register_decision (enabled_read f d) bans (license_read f d license)
            (hwid_in_use (map_to_list (licenses_read f d)) license h) now h
      | HwidsText s =>
          register_decision (enabled_read f d)
            (if bool_decide (occurs_in h s) then [h] else [])
            (license_read f d license)
            (hwid_in_use (map_to_list (licenses_read f d)) license h) now h
      | NotAList => if enabled_read f d then ERROR else API_DISABLED
      end).
Proof.
  intros Hwf. destruct (well_formed_guard _ _ _ Hwf) as (G & Hl & Hh).
  unfold run, api_register, register_decision, enabled_read, banlist_read, license_read,
    licenses_read, api_enabled, isHWIDBanned, includes.
  rewrite G, Hl, Hh. run_helpers.
  destruct (f OpLogActivity), (f OpGetSettings); cbn;
    try (by destruct (f OpGetBanlist), (hwids_of (banlist d))).
  all: destruct (truthy_flag _); cbn;
    [|by destruct (f OpGetBanlist), (hwids_of (banlist d))].
  all: run_helpers.
  all: destruct (f OpGetBanlist);
    [|destruct (hwids_of (banlist d)) as [bans|s|]; [|text_case h s|done]].
  all: run_helpers.
  all: destruct (bool_decide (h ∈ _)); [done|]; run_helpers.
  all: destruct (f (OpGetLicense license)); [done|].
  all: destruct (licenses d !! license) as [lic|]; [|done].
  all: destruct (isLicenseExpired now lic); [done|].
  all: destruct (truthy (hwid lic) && negb (strict_eq (hwid lic) h)); [done|].
  all: run_helpers.
  all: destruct (f OpGetLicenses); cbn.
  all: destruct (hwid_in_use _ _ _); [done|].
  all: by run_helpers.
Qed.

(** C7 (amended). A failed store read during validate or register is
    absorbed by the helper that made it and replaced by its fallback value,
    and the reply follows from that value instead of being ERROR: a failed
    settings read answers API_DISABLED; a failed license read, past the
    earlier checks, answers INVALID_LICENSE; after a failed ban-list read the
    list is taken as empty, so the reply is never BANNED.  The reply is
    always one of the fixed outcome codes. *)
Theorem store_faults_absorbed (f : StoreOp → bool) (now : Z) (req : Request)
    (license h : string) (d : Db) :
  well_formed req license h →
  let rv := run (api_validate f now req) d in
  let rr := run (api_register f now req) d in
  ((∃ o, rv.1 = Ok o) ∧ (∃ o, rr.1 = Ok o)) ∧
  (f OpGetSettings = true → rv.1 = Ok API_DISABLED ∧ rr.1 = Ok API_DISABLED) ∧
  (f OpGetBanlist = true → rv.1 ≠ Ok BANNED ∧ rr.1 ≠ Ok BANNED) ∧
  (f (OpGetLicense license) = true →
   f OpGetSettings = false → api_enabled d = true →
   (f OpGetBanlist = true ∨ ∃ bans, hwids_of (banlist d) = Hwids bans ∧ h ∉ bans) →
   rv.1 = Ok INVALID_LICENSE ∧ rr.1 = Ok INVALID_LICENSE).
Proof.
  intros Hwf rv rr.
  pose proof (api_validate_reply f now req license h d Hwf) as Ev.
  pose proof (api_register_reply f now req license h d Hwf) as Er.
  fold rv in Ev. fold rr in Er. rewrite Ev, Er. clear Ev Er rv rr.
  unfold enabled_read, banlist_read, license_read.
  split; [split; eauto|].
  split.
  { intros ->. by destruct (f OpGetBanlist), (hwids_of (banlist d)). }
  split.
  { intros ->. unfold spec_validate, register_decision.
    rewrite bool_decide_eq_false_2 by apply not_elem_of_nil.
    split; intros [=]; by repeat case_match. }
  intros -> -> -> [-> | (bans & Hbans & Hb)];
    unfold spec_validate, register_decision; cbn [negb].
  - by rewrite bool_decide_eq_false_2 by apply not_elem_of_nil.
  - destruct (f OpGetBanlist).
    + by rewrite bool_decide_eq_false_2 by apply not_elem_of_nil.
    + rewrite Hbans. by rewrite bool_decide_eq_false_2.
Qed.

(** ** Banning a HWID *)

Lemma ban_guard (body_hwid : option string) :
  truthy body_hwid && truthy (trim <$> body_hwid) =
  negb (bool_decide (trim (default "" body_hwid) = "")).
Proof.
  destruct body_hwid as [h|]; [|done]. cbn.
  destruct (bool_decide_reflect (h = "")) as [->|Hne]; [done|]. done.
Qed.

(** C10. On a store that answers, with a ban list that is a list, the admin
    ban action works on the trimmed input: when the trimmed form is empty
    (missing, empty or white-space-only input) the database is left as it
    was; when the trimmed form is already in the ban list the database is
    left as it was; otherwise the trimmed form is appended.  Afterwards the
    ban list contains the trimmed form, and any other string, the padded
    original included, is in it only if it was in it before. *)
Theorem ban_inserts_trimmed (now : Z) (body_hwid body_reason : option string)
    (ip : string) (userAgent : option string) (d : Db) (bans : list string) :
  hwids_of (banlist d) = Hwids bans →
  let r := run (admin_ban_hwid reliable now body_hwid body_reason ip userAgent) d in
  let t := trim (default "" body_hwid) in
  r.1 = Ok Redirected ∧
  (t = "" → db r.2 = d) ∧
  (t ≠ "" → t ∈ bans → db r.2 = d) ∧
  (t ≠ "" → t ∉ bans → hwids_of (banlist (db r.2)) = Hwids (bans ++ [t])) ∧
  (t ≠ "" →
   ∃ bans', hwids_of (banlist (db r.2)) = Hwids bans' ∧
            t ∈ bans' ∧
            (∀ x, x ≠ t → x ∈ bans' ↔ x ∈ bans) ∧
            (∀ h, body_hwid = Some h → h ≠ t → h ∉ bans → h ∉ bans')).
Proof.
  intros Hb r t. subst r. unfold run, admin_ban_hwid, includes, push.
  rewrite ban_guard. fold t.
  destruct (bool_decide_reflect (t = "")) as [Ht|Ht]; cbn [negb].
  { run_helpers. done. }
  run_helpers. rewrite Hb. run_helpers.
  destruct (bool_decide_reflect (t ∈ bans)) as [Hin|Hin]; run_helpers.
  - split; [done|]. split; [done|]. split; [done|]. split; [done|].
    intros _. exists bans. rewrite Hb. done.
  - split; [done|]. split; [done|]. split; [done|]. split; [done|].
    intros _. exists (bans ++ [t]). split; [done|].
    assert (∀ x, x ≠ t → x ∈ bans ++ [t] ↔ x ∈ bans) as Hsame.
    { intros x Hx. rewrite elem_of_app, list_elem_of_singleton. tauto. }
    split; [apply elem_of_app; right; by apply list_elem_of_singleton|].
    split; [done|]. intros h _ Hne Hh Hin'. by apply Hsame in Hin'.
Qed.

(** ** License creation *)

(** Single-key creation: when the store answers and the key already has a
    record, [/admin/generate-license] replies with the duplicate-key alert
    and leaves the database as it was. *)
Lemma generate_license_rejects_duplicate (f : StoreOp → bool) (now : Z)
    (entropy : nat → N) (toISOString : Z → string) (user license : string)
    (body_expiry : option (option Z)) (ip : string) (userAgent : option string)
    (d : Db) (lic : License) :
  license ≠ "" →
  f (OpGetLicense license) = false →
  licenses d !! license = Some lic →
  let r := run (admin_generate_license f now entropy toISOString user (Some license)
                  body_expiry ip userAgent) d in
  r.1 = Ok AlertLicenseExists ∧ db r.2 = d.
Proof.
  intros Hne Hf Hlic r. subst r. unfold run, admin_generate_license.
  cbn [truthy]. rewrite bool_decide_eq_false_2 by done. run_helpers.
  rewrite Hf, Hlic. cbn. done.
Qed.

Lemma ask_well_formed license h :
  license ≠ "" → h ≠ "" → well_formed (ask license h) license h.
Proof. intros ? ?. by repeat split. Qed.

(** The scenario of the specification: validate, register, validate again,
    then another device. *)
Example scenario :
  let d1 := db (run (api_register reliable 10 (ask "LIC-AAAA" "H1")) fresh_db).2 in
  (run (api_validate reliable 5 (ask "LIC-AAAA" "H1")) fresh_db).1 = Ok HWID_MISMATCH ∧
  (run (api_register reliable 10 (ask "LIC-AAAA" "H1")) fresh_db).1 = Ok SUCCESS ∧
  (run (api_validate reliable 15 (ask "LIC-AAAA" "H1")) d1).1 = Ok VALID ∧
  (run (api_validate reliable 20 (ask "LIC-AAAA" "H2")) d1).1 = Ok HWID_MISMATCH ∧
  (run (api_register reliable 25 (ask "LIC-AAAA" "H2")) d1).1 = Ok ALREADY_REGISTERED.
Proof. vm_compute. done. Qed.

(** C6 (the code at the failing input). [/admin/bulk-generate] writes each
    generated key without looking it up: when the random bytes give the key
    of an existing license, the reply is the ordinary redirect and the
    existing record is overwritten, its binding and history gone. *)
Example bulk_generate_overwrites_existing :
  let r := run (admin_bulk_generate reliable 5000 (λ _, 0%N) "admin" (Some 1%Z) None
                  "198.51.100.1" None) colliding_db in
  licenses colliding_db !! "LIC-00000000-00000000" = Some (bound_license "H1") ∧
  r.1 = Ok Redirected ∧
  hwid <$> licenses (db r.2) !! "LIC-00000000-00000000" = Some (Some "") ∧
  history <$> licenses (db r.2) !! "LIC-00000000-00000000" = Some (Some []) ∧
  licenses (db r.2) !! "LIC-00000000-00000000" ≠ Some (bound_license "H1").
Proof. vm_compute. repeat split; done. Qed.

(** ** The theorems at concrete inputs *)

Lemma isLicenseExpired_strict_witness :
  isLicenseExpired 10 new_license = false ∧
  (isLicenseExpired 11 (bound_license "H1") = true ↔
   ∃ t, expiry (bound_license "H1") = Some (ExpiryDate t) ∧ (11 > t)%Z).
Proof.
  destruct (isLicenseExpired_strict 10 new_license) as (H1 & _ & _).
  destruct (isLicenseExpired_strict 11 (bound_license "H1")) as (_ & _ & H3).
  split; [apply H1; right; reflexivity | exact H3].
Defined.

Lemma validate_decision_order_witness :
  let r := run (api_validate reliable 15 (ask "LIC-AAAA" "H1")) bound_db in
  r.1 = Ok VALID ∧
  (∀ k, hwid <$> licenses (db r.2) !! k = hwid <$> licenses bound_db !! k).
Proof.
  destruct (validate_decision_order 15 (ask "LIC-AAAA" "H1") "LIC-AAAA" "H1" bound_db [])
    as (H1 & _ & _ & H4).
  - by apply ask_well_formed.
  - reflexivity.
  - split; [exact H1 | exact H4].
Defined.

Lemma register_outcomes_witness :
  let r := run (api_register reliable 10 (ask "LIC-AAAA" "H1")) fresh_db in
  r.1 = Ok SUCCESS ∧
  hwid <$> licenses (db r.2) !! "LIC-AAAA" = Some (Some "H1").
Proof.
  destruct (register_outcomes 10 (ask "LIC-AAAA" "H1") "LIC-AAAA" "H1" fresh_db []
              new_license) as (_ & _ & H3).
  - by apply ask_well_formed.
  - reflexivity.
  - reflexivity.
  - apply not_elem_of_nil.
  - reflexivity.
  - reflexivity.
  - destruct H3 as (Hs & lic' & Hl & Hh & _).
    + intros (h0 & [= <-] & Hne & _). by apply Hne.
    + intros Hx%hwid_in_use_spec. vm_compute in Hx. discriminate Hx.
    + split; [exact Hs|]. cbv zeta in Hl. rewrite Hl. cbn. by rewrite Hh.
Defined.

Lemma hwid_globally_unique_witness :
  let r1 := run (api_register reliable 10 (ask "LIC-AAAA" "H1")) two_db in
  r1.1 = Ok SUCCESS ∧
  (run (api_register reliable 20 (ask "LIC-BBBB" "H1")) (db r1.2)).1 = Ok HWID_IN_USE.
Proof.
  split; [reflexivity|].
  apply (hwid_globally_unique 10 20 (ask "LIC-AAAA" "H1") (ask "LIC-BBBB" "H1")
           "LIC-AAAA" "LIC-BBBB" "H1" two_db [] new_license).
  - by apply ask_well_formed.
  - by apply ask_well_formed.
  - reflexivity.
  - reflexivity.
  - discriminate.
  - reflexivity.
  - reflexivity.
  - reflexivity.
Defined.

Lemma register_same_device_again_witness :
  let r1 := run (api_register reliable 10 (ask "LIC-AAAA" "H1")) bound_db in
  let r2 := run (api_register reliable 20 (ask "LIC-AAAA" "H1")) (db r1.2) in
  r1.1 = Ok SUCCESS ∧ r2.1 = Ok SUCCESS.
Proof.
  destruct (register_same_device_again 10 20 (ask "LIC-AAAA" "H1") (ask "LIC-AAAA" "H1")
              "LIC-AAAA" "H1" bound_db [] (bound_license "H1")) as (H1 & H2 & _).
  - by apply ask_well_formed.
  - by apply ask_well_formed.
  - reflexivity.
  - reflexivity.
  - apply not_elem_of_nil.
  - reflexivity.
  - intros (h0 & [= <-] & _ & Hne). by apply Hne.
  - intros Hx%hwid_in_use_spec. vm_compute in Hx. discriminate Hx.
  - reflexivity.
  - reflexivity.
  - split; [exact H1 | exact H2].
Defined.

(** C5 (counterexample). H1 is in the ban list, yet with the API switched
    off validate and register answer API_DISABLED, not BANNED. *)
Lemma banned_hwid_api_disabled :
  hwids_of (banlist disabled_db) = Hwids ["H1"] ∧
  (run (api_validate reliable 15 (ask "LIC-AAAA" "H1")) disabled_db).1 = Ok API_DISABLED ∧
  (run (api_register reliable 15 (ask "LIC-AAAA" "H1")) disabled_db).1 = Ok API_DISABLED ∧
  (run (api_validate reliable 15 (ask "LIC-AAAA" "H1")) disabled_db).1 ≠ Ok BANNED.
Proof. vm_compute. repeat split; done. Qed.

Lemma banned_before_license_checks_witness :
  (run (api_validate reliable 15 (ask "LIC-ZZZZ" "H1")) banned_db).1 = Ok BANNED ∧
  (run (api_register reliable 15 (ask "LIC-ZZZZ" "H1")) banned_db).1 = Ok BANNED.
Proof.
  destruct (banned_before_license_checks 15 (ask "LIC-ZZZZ" "H1") "LIC-ZZZZ" "H1"
              banned_db ["H1"]) as ((H1 & _) & (H2 & _)).
  - by apply ask_well_formed.
  - reflexivity.
  - reflexivity.
  - apply list_elem_of_singleton. reflexivity.
  - split; [exact H1 | exact H2].
Defined.

(** C7 (counterexample). The license is bound to H1 and validates on a store
    that answers; when the read of its record fails, the caller is told
    INVALID_LICENSE, not ERROR. *)
Lemma license_read_fault_not_error :
  (run (api_validate reliable 15 (ask "LIC-AAAA" "H1")) bound_db).1 = Ok VALID ∧
  license_read_fails (OpGetLicense "LIC-AAAA") = true ∧
  (run (api_validate license_read_fails 15 (ask "LIC-AAAA" "H1")) bound_db).1
    = Ok INVALID_LICENSE ∧
  (run (api_validate license_read_fails 15 (ask "LIC-AAAA" "H1")) bound_db).1
    ≠ Ok ERROR.
Proof. vm_compute. repeat split; done. Qed.

Lemma store_faults_absorbed_witness :
  (run (api_validate license_read_fails 15 (ask "LIC-AAAA" "H1")) bound_db).1
    = Ok INVALID_LICENSE ∧
  (run (api_register license_read_fails 15 (ask "LIC-AAAA" "H1")) bound_db).1
    = Ok INVALID_LICENSE.
Proof.
  destruct (store_faults_absorbed license_read_fails 15 (ask "LIC-AAAA" "H1")
              "LIC-AAAA" "H1" bound_db) as (_ & _ & _ & H4).
  - by apply ask_well_formed.
  - apply H4; [reflexivity | reflexivity | reflexivity |].
    right. exists []. split; [reflexivity | apply not_elem_of_nil].
Defined.

Lemma ban_inserts_trimmed_witness :
  let r := run (admin_ban_hwid reliable 30 (Some "  H9 ") None "198.51.100.1" None)
             fresh_db in
  trim "  H9 " = "H9" ∧
  hwids_of (banlist (db r.2)) = Hwids ["H9"].
Proof.
  split; [reflexivity|].
  destruct (ban_inserts_trimmed 30 (Some "  H9 ") None "198.51.100.1" None fresh_db [])
    as (_ & _ & _ & H4 & _).
  - reflexivity.
  - apply H4; [discriminate | apply not_elem_of_nil].
Defined.

(** After banning a padded string the ban check matches the trimmed HWID and
    not the padded one. *)
Example padded_ban_matches_trimmed :
  let d := db (run (admin_ban_hwid reliable 30 (Some "  H9 ") None "198.51.100.1" None)
                 fresh_db).2 in
  (run (api_validate reliable 40 (ask "LIC-AAAA" "H9")) d).1 = Ok BANNED ∧
  (run (api_validate reliable 40 (ask "LIC-AAAA" "  H9 ")) d).1 = Ok HWID_MISMATCH.
Proof. vm_compute. done. Qed.

(** * Further properties of the handlers *)

(** ** Unbanning *)

Lemma filter_out_removes (bans : list string) (h : string) :
  let bans' := filter (λ x, Some x ≠ Some h) bans in
  (h ∉ bans') ∧ (∀ x, x ∈ bans' ↔ x ∈ bans ∧ x ≠ h) ∧ bans' `sublist_of` bans.
Proof.
  cbn. split; [|split].
  - intros [Hne _]%list_elem_of_filter. by apply Hne.
  - intros x. rewrite list_elem_of_filter. split.
    + intros [Hne Hin]. split; [done|]. congruence.
    + intros [Hin Hne]. split; [congruence|done].
  - apply sublist_filter.
Qed.

Lemma filter_out_absent (bans : list string) (t : string) :
  t ∉ bans → filter (λ x, Some x ≠ Some t) bans = bans.
Proof.
  induction bans as [|x bans IH]; [done|].
  intros [Hx Hn]%not_elem_of_cons.
  rewrite filter_cons_True by congruence. by rewrite IH.
Qed.

(** X1. On a store that answers, with a ban list that is a list, unbanning
    stores the list without the entries equal to the input, the others in
    their order and number; the input is then not in the list, a list that
    did not hold the input is stored as it was, and no license changes. *)
Theorem unban_removes_exact_match (now : Z) (h : string) (ip : string)
    (userAgent : option string) (d : Db) (bans : list string) :
  hwids_of (banlist d) = Hwids bans →
  let r := run (admin_unban_hwid reliable now (Some h) ip userAgent) d in
  let bans' := filter (λ x, x ≠ h) bans in
  r.1 = Ok Redirected ∧
  licenses (db r.2) = licenses d ∧
  hwids_of (banlist (db r.2)) = Hwids bans' ∧
  (h ∉ bans') ∧
  (∀ x, x ∈ bans' ↔ x ∈ bans ∧ x ≠ h) ∧
  (h ∉ bans → bans' = bans).
Proof.
  intros Hb r bans'.
  assert (filter (λ x, Some x ≠ Some h) bans = bans') as Hf.
  { apply list_filter_iff. intros x. split; congruence. }
  subst r. unfold run, admin_unban_hwid, filter_out.
  run_helpers. rewrite Hb. run_helpers. rewrite Hf.
  split; [done|]. split; [done|]. split; [done|].
  destruct (filter_out_removes bans h) as (H1 & H2 & _). cbv zeta in H1, H2.
  rewrite Hf in H1, H2. split; [done|]. split; [done|].
  intros Hn. rewrite <- Hf. by apply filter_out_absent.
Qed.

Lemma spec_validate_banned e bans record now h :
  spec_validate e bans record now h = BANNED ↔ e = true ∧ h ∈ bans.
Proof.
  unfold spec_validate. destruct e; cbn [negb].
  - destruct (bool_decide_reflect (h ∈ bans)); [done|].
    split; [by repeat case_match|]. by intros [_ ?].
  - split; [done|]. by intros [? _].
Qed.

Lemma register_decision_banned e bans record u now h :
  register_decision e bans record u now h = BANNED ↔ e = true ∧ h ∈ bans.
Proof.
  unfold register_decision. destruct e; cbn [negb].
  - destruct (bool_decide_reflect (h ∈ bans)); [done|].
    split; [by repeat case_match|]. by intros [_ ?].
  - split; [done|]. by intros [? _].
Qed.

(** What [/admin/ban-hwid] leaves behind on a store that answers, for an
    input whose trimmed form is not empty. *)
Lemma admin_ban_hwid_reliable now h0 reason ip ua d bans :
  hwids_of (banlist d) = Hwids bans →
  trim h0 ≠ "" →
  let r := run (admin_ban_hwid reliable now (Some h0) reason ip ua) d in
  hwids_of (banlist (db r.2)) =
    Hwids (if bool_decide (trim h0 ∈ bans) then bans else bans ++ [trim h0]) ∧
  licenses (db r.2) = licenses d ∧
  settings (db r.2) = settings d.
Proof.
  intros Hb Ht r. subst r. unfold run, admin_ban_hwid, includes, push.
  rewrite ban_guard. cbn [default]. rewrite (bool_decide_eq_false_2 _ Ht). cbn [negb].
  run_helpers. rewrite Hb. run_helpers.
  destruct (bool_decide (trim h0 ∈ bans)); run_helpers; done.
Qed.

Lemma admin_unban_hwid_reliable now h ip ua d bans :
  hwids_of (banlist d) = Hwids bans →
  let r := run (admin_unban_hwid reliable now (Some h) ip ua) d in
  hwids_of (banlist (db r.2)) = Hwids (filter (λ x, Some x ≠ Some h) bans) ∧
  licenses (db r.2) = licenses d ∧
  settings (db r.2) = settings d.
Proof.
  intros Hb r. subst r. unfold run, admin_unban_hwid, filter_out.
  run_helpers. rewrite Hb. run_helpers. done.
Qed.

(** X2. After a HWID has been unbanned, validate and register with that HWID
    do not answer BANNED. *)
Theorem unbanned_hwid_not_banned (now1 now2 : Z) (req : Request) (license h : string)
    (ip : string) (userAgent : option string) (d : Db) (bans : list string) :
  hwids_of (banlist d) = Hwids bans →
  well_formed req license h →
  let d' := db (run (admin_unban_hwid reliable now1 (Some h) ip userAgent) d).2 in
  (run (api_validate reliable now2 req) d').1 ≠ Ok BANNED ∧
  (run (api_register reliable now2 req) d').1 ≠ Ok BANNED.
Proof.
  intros Hb Hwf d'.
  destruct (admin_unban_hwid_reliable now1 h ip userAgent d bans Hb) as (Hb' & _).
  fold d' in Hb'.
  destruct (filter_out_removes bans h) as (Hnot & _).
  destruct (api_validate_reliable now2 req license h d' _ Hwf Hb') as (Ev & _).
  destruct (api_register_reliable now2 req license h d' _ Hwf Hb') as (Er & _).
  rewrite Ev, Er. unfold register_on.
  split; intros [= Hx].
  - apply spec_validate_banned in Hx as [_ Hx]. by apply Hnot.
  - apply register_decision_banned in Hx as [_ Hx]. by apply Hnot.
Qed.

(** X3. After the admin has banned a string, validate and register with its
    trimmed form answer BANNED for every non-empty license key, as long as
    the API is enabled. *)
Theorem banned_after_ban (now1 now2 : Z) (req : Request) (license h0 : string)
    (reason : option string) (ip : string) (userAgent : option string)
    (d : Db) (bans : list string) :
  hwids_of (banlist d) = Hwids bans →
  api_enabled d = true →
  well_formed req license (trim h0) →
  let d' := db (run (admin_ban_hwid reliable now1 (Some h0) reason ip userAgent) d).2 in
  (run (api_validate reliable now2 req) d').1 = Ok BANNED ∧
  (run (api_register reliable now2 req) d').1 = Ok BANNED.
Proof.
  intros Hb He Hwf d'.
  assert (trim h0 ≠ "") as Ht by apply Hwf.
  destruct (admin_ban_hwid_reliable now1 h0 reason ip userAgent d bans Hb Ht)
    as (Hb' & _ & Hs).
  fold d' in Hb', Hs.
  assert (api_enabled d' = true) as He' by (unfold api_enabled in *; by rewrite Hs).
  assert (trim h0 ∈ (if bool_decide (trim h0 ∈ bans) then bans else bans ++ [trim h0]))
    as Hin.
  { case_bool_decide; [done|]. apply elem_of_app. right. by apply list_elem_of_singleton. }
  destruct (api_validate_reliable now2 req license _ d' _ Hwf Hb') as (Ev & _).
  destruct (api_register_reliable now2 req license _ d' _ Hwf Hb') as (Er & _).
  rewrite Ev, Er. unfold register_on. split; f_equal.
  - by apply spec_validate_banned.
  - by apply register_decision_banned.
Qed.

Lemma filter_out_fresh (bans : list string) (t : string) :
  t ∉ bans → filter (λ x, Some x ≠ Some t) (bans ++ [t]) = bans.
Proof.
  intros Hn. rewrite filter_app, filter_out_absent by done.
  rewrite filter_cons_False by (intros Hx; by apply Hx). apply app_nil_r.
Qed.

(** X4. Banning a string that was not banned and then unbanning its trimmed
    form gives the ban list back as it was.  Unbanning does not trim: with
    the padded original as input the trimmed entry stays banned. *)
Theorem ban_then_unban (now1 now2 : Z) (h0 : string) (reason : option string)
    (ip : string) (userAgent : option string) (d : Db) (bans : list string) :
  hwids_of (banlist d) = Hwids bans →
  trim h0 ≠ "" →
  trim h0 ∉ bans →
  let d1 := db (run (admin_ban_hwid reliable now1 (Some h0) reason ip userAgent) d).2 in
  (hwids_of (banlist
     (db (run (admin_unban_hwid reliable now2 (Some (trim h0)) ip userAgent) d1).2))
   = Hwids bans) ∧
  (h0 ≠ trim h0 →
   ∃ bans', hwids_of (banlist
              (db (run (admin_unban_hwid reliable now2 (Some h0) ip userAgent) d1).2))
            = Hwids bans' ∧ trim h0 ∈ bans').
Proof.
  intros Hb Ht Hn d1.
  destruct (admin_ban_hwid_reliable now1 h0 reason ip userAgent d bans Hb Ht) as (Hb1 & _).
  fold d1 in Hb1. rewrite (bool_decide_eq_false_2 _ Hn) in Hb1.
  split.
  - destruct (admin_unban_hwid_reliable now2 (trim h0) ip userAgent d1 _ Hb1) as (-> & _).
    by rewrite filter_out_fresh.
  - intros Hne.
    destruct (admin_unban_hwid_reliable now2 h0 ip userAgent d1 _ Hb1) as (-> & _).
    eexists. split; [reflexivity|].
    apply (filter_out_removes (bans ++ [trim h0]) h0). split; [|congruence].
    apply elem_of_app. right. by apply list_elem_of_singleton.
Qed.

(** X5. When the read of the ban list fails and the write succeeds, the
    stored ban list is overwritten from the helper's empty fallback: after an
    unban it is empty, after a ban it holds the new entry alone. *)
Theorem failed_read_replaces_ban_list (f : StoreOp → bool) (now : Z)
    (body_hwid : option string) (h0 : string) (reason : option string)
    (ip : string) (userAgent : option string) (d : Db) :
  f OpGetBanlist = true →
  f OpSaveBanlist = false →
  banlist (db (run (admin_unban_hwid f now body_hwid ip userAgent) d).2)
    = Some (Some (Hwids [])) ∧
  (trim h0 ≠ "" →
   banlist (db (run (admin_ban_hwid f now (Some h0) reason ip userAgent) d).2)
     = Some (Some (Hwids [trim h0]))).
Proof.
  intros Hr Hw. split.
  - unfold run, admin_unban_hwid, filter_out. run_helpers. rewrite Hr. run_helpers.
    destruct (f OpSaveBanlist) eqn:Hs; [done|]. destruct (f OpLogActivity); cbn; done.
  - intros Ht. unfold run, admin_ban_hwid, includes, push.
    rewrite ban_guard. cbn [default]. rewrite (bool_decide_eq_false_2 _ Ht). cbn [negb].
    run_helpers. rewrite Hr. run_helpers.
    rewrite (bool_decide_eq_false_2 (trim h0 ∈ [])) by apply not_elem_of_nil.
    run_helpers.
    destruct (f OpSaveBanlist) eqn:Hs; [done|]. destruct (f OpLogActivity); cbn; done.
Qed.

(** ** Resetting a binding *)

Lemma merge_reset now a u lic :
  merge_license lic (reset_license now a u lic) = reset_license now a u lic.
Proof.
  destruct lic as [h b c d e f g i j k]. unfold merge_license, reset_license. cbn.
  f_equal; match goal with |- from_option Some ?x ?x = ?x => by destruct x end.
Qed.

Lemma write_license_reset k now a u lic d :
  licenses d !! k = Some lic →
  licenses (write_license k (reset_license now a u lic) d) =
  <[k := reset_license now a u lic]> (licenses d).
Proof.
  intros H. unfold write_license. rewrite H, merge_reset. reflexivity.
Qed.

(** What [/admin/reset-hwid] leaves behind on a store that answers. *)
Lemma admin_reset_hwid_reliable now user license ip ua d :
  let r := run (admin_reset_hwid reliable now user license ip ua) d in
  r.1 = Ok Redirected ∧
  licenses (db r.2) =
    match licenses d !! license with
    | Some lic => <[license := reset_license now "HWID_RESET_BY_ADMIN" user lic]> (licenses d)
    | None => licenses d
    end ∧
  banlist (db r.2) = banlist d ∧
  settings (db r.2) = settings d.
Proof.
  intros r. subst r. unfold run, admin_reset_hwid. run_helpers.
  destruct (licenses d !! license) as [lic|] eqn:Hlic; run_helpers; [|done].
  rewrite write_license_reset by done.
  by rewrite write_license_banlist, write_license_settings.
Qed.

(** X6. On a store that answers, the admin reset of a license that does not
    exist leaves the database as it was; for an existing license the record
    becomes unbound, its activation stamp is cleared, one
    HWID_RESET_BY_ADMIN entry is appended to the history, expiry, last
    validation and device data stay, and no other record changes. *)
Theorem reset_hwid_unbinds (now : Z) (user license : string) (ip : string)
    (userAgent : option string) (d : Db) :
  let r := run (admin_reset_hwid reliable now user license ip userAgent) d in
  r.1 = Ok Redirected ∧
  (licenses d !! license = None → db r.2 = d) ∧
  (∀ lic, licenses d !! license = Some lic →
     ∃ lic', licenses (db r.2) !! license = Some lic' ∧
       unbound lic' ∧
       activatedAt lic' = Some Unset ∧
       history lic' =
         Some (default [] (history lic) ++
               [mkHistoryEntry "HWID_RESET_BY_ADMIN" now None None (Some user)]) ∧
       expiry lic' = expiry lic ∧
       lastValidated lic' = lastValidated lic ∧
       activationIP lic' = activationIP lic ∧
       deviceInfo lic' = deviceInfo lic) ∧
  (∀ k, k ≠ license → licenses (db r.2) !! k = licenses d !! k).
Proof.
  intros r.
  destruct (admin_reset_hwid_reliable now user license ip userAgent d) as (E1 & E2 & _).
  fold r in E1, E2. split; [done|]. split; [|split].
  - intros Hn. subst r. unfold run, admin_reset_hwid. run_helpers. rewrite Hn. by cbn.
  - intros lic Hlic. rewrite Hlic in E2.
    exists (reset_license now "HWID_RESET_BY_ADMIN" user lic).
    rewrite E2, lookup_insert_eq. done.
  - intros k Hne. rewrite E2. destruct (licenses d !! license); [|done].
    by rewrite lookup_insert_ne.
Qed.

Lemma isLicenseExpired_expiry now a b :
  expiry a = expiry b → isLicenseExpired now a = isLicenseExpired now b.
Proof. unfold isLicenseExpired. by intros ->. Qed.

Lemma register_decision_success_iff bans record u now h :
  h ∉ bans →
  (∃ lic, record = Some lic ∧ isLicenseExpired now lic = false ∧
          ¬ bound_to_other lic h) →
  u = false →
  register_decision true bans record u now h = SUCCESS.
Proof.
  intros Hb (lic & -> & He & Ho) ->. unfold register_decision. cbn [negb].
  rewrite bool_decide_eq_false_2, He by done.
  destruct (truthy (hwid lic) && negb (strict_eq (hwid lic) h)) eqn:Hx; [|done].
  by apply bound_to_other_test in Hx.
Qed.

Lemma not_held_not_in_use (m : gmap string License) license h :
  ¬ held_elsewhere m license h → hwid_in_use (map_to_list m) license h = false.
Proof.
  intros Hn. destruct (hwid_in_use _ _ _) eqn:Hu; [|done].
  by apply hwid_in_use_spec in Hu.
Qed.

Lemma unbound_not_bound_to_other lic h : unbound lic → ¬ bound_to_other lic h.
Proof.
  unfold unbound, truthy. intros Hu (h0 & E & Hne & _). rewrite E in Hu.
  by rewrite bool_decide_eq_false_2 in Hu.
Qed.

(** X7. After an admin reset, whatever the license was bound to, validate
    answers HWID_MISMATCH for every device and register binds any device no
    other license holds (API enabled, device not banned, license not
    expired). *)
Theorem after_reset_any_device (now1 now2 : Z) (user license h : string) (ip : string)
    (userAgent : option string) (req : Request) (d : Db) (bans : list string)
    (lic : License) :
  hwids_of (banlist d) = Hwids bans →
  api_enabled d = true →
  h ∉ bans →
  well_formed req license h →
  licenses d !! license = Some lic →
  isLicenseExpired now2 lic = false →
  let d' := db (run (admin_reset_hwid reliable now1 user license ip userAgent) d).2 in
  (run (api_validate reliable now2 req) d').1 = Ok HWID_MISMATCH ∧
  (¬ held_elsewhere (licenses d) license h →
   (run (api_register reliable now2 req) d').1 = Ok SUCCESS).
Proof.
  intros Hb He Hn Hwf Hlic Hexp d'.
  destruct (admin_reset_hwid_reliable now1 user license ip userAgent d)
    as (_ & E2 & E3 & E4).
  fold d' in E2, E3, E4. rewrite Hlic in E2.
  set (lic' := reset_license now1 "HWID_RESET_BY_ADMIN" user lic) in *.
  assert (hwids_of (banlist d') = Hwids bans) as Hb' by by rewrite E3.
  assert (api_enabled d' = true) as He' by (unfold api_enabled in *; by rewrite E4).
  assert (licenses d' !! license = Some lic') as Hl' by by rewrite E2, lookup_insert_eq.
  assert (isLicenseExpired now2 lic' = false) as Hx'.
  { by rewrite (isLicenseExpired_expiry now2 lic' lic). }
  assert (unbound lic') as Hu by done.
  assert (h ≠ "") as Hh by apply Hwf.
  split.
  - destruct (api_validate_reliable now2 req license h d' bans Hwf Hb') as (-> & _).
    unfold spec_validate. rewrite He', Hl', Hx'. cbn [negb].
    by rewrite bool_decide_eq_false_2, unbound_not_candidate.
  - intros Hheld.
    destruct (api_register_reliable now2 req license h d' bans Hwf Hb') as (-> & _).
    f_equal. unfold register_on. rewrite He'. apply register_decision_success_iff.
    + done.
    + exists lic'. split; [done|]. split; [done|]. by apply unbound_not_bound_to_other.
    + apply not_held_not_in_use. rewrite E2. by rewrite held_elsewhere_insert.
Qed.

(** ** Creating a license, then using it *)

Lemma merge_fresh_absent k data d :
  licenses d !! k = None →
  licenses (write_license k data d) = <[k := data]> (licenses d).
Proof. intros H. unfold write_license. by rewrite H. Qed.

(** What [/admin/generate-license] leaves behind on a store that answers,
    for an explicit key without a record and a valid or absent expiry. *)
Lemma admin_generate_license_reliable now entropy toISO user k (t_opt : option Z) ip ua d :
  k ≠ "" →
  licenses d !! k = None →
  let r := run (admin_generate_license reliable now entropy toISO user (Some k)
                  (Some <$> t_opt) ip ua) d in
  r.1 = Ok Redirected ∧
  licenses (db r.2) =
    <[k := fresh_license now (from_option ExpiryDate ExpiryNull t_opt) user None]>
      (licenses d) ∧
  banlist (db r.2) = banlist d ∧
  settings (db r.2) = settings d.
Proof.
  intros Hk Hn r. subst r. unfold run, admin_generate_license.
  cbn [truthy]. rewrite bool_decide_eq_false_2 by done. run_helpers.
  rewrite Hn. cbn. destruct t_opt as [t|]; run_helpers.
  all: rewrite merge_fresh_absent by done.
  all: by rewrite write_license_banlist, write_license_settings.
Qed.

(** X8. On a store that answers, generating an explicit key that has no record
    creates an unbound record with an empty history, the requested expiry
    and the creation data, and touches no other record; a body expiry that
    is not a date is answered with the error alert and nothing is written. *)
Theorem generate_license_creates_unbound (now : Z) (entropy : nat → N)
    (toISOString : Z → string) (user k : string) (t_opt : option Z) (ip : string)
    (userAgent : option string) (d : Db) :
  k ≠ "" →
  licenses d !! k = None →
  (let r := run (admin_generate_license reliable now entropy toISOString user (Some k)
                   (Some <$> t_opt) ip userAgent) d in
   r.1 = Ok Redirected ∧
   (∃ lic, licenses (db r.2) !! k = Some lic ∧
           unbound lic ∧ history lic = Some [] ∧
           expiry lic = Some (from_option ExpiryDate ExpiryNull t_opt) ∧
           createdAt lic = Some now ∧ createdBy lic = Some user) ∧
   (∀ k', k' ≠ k → licenses (db r.2) !! k' = licenses d !! k')) ∧
  (let r := run (admin_generate_license reliable now entropy toISOString user (Some k)
                   (Some None) ip userAgent) d in
   r.1 = Ok AlertError ∧ db r.2 = d).
Proof.
  intros Hk Hn. split.
  - intros r.
    destruct (admin_generate_license_reliable now entropy toISOString user k t_opt ip
                userAgent d Hk Hn) as (E1 & E2 & _).
    fold r in E1, E2. split; [done|]. split.
    + eexists. rewrite E2, lookup_insert_eq. done.
    + intros k' Hne. by rewrite E2, lookup_insert_ne.
  - intros r. subst r. unfold run, admin_generate_license.
    cbn [truthy]. rewrite bool_decide_eq_false_2 by done. run_helpers.
    rewrite Hn. cbn. done.
Qed.

(** X9. A license generated under a fresh key can be registered by a device
    that is not banned and not held elsewhere, and then validates for that
    device, as long as the clock has not passed the expiry given at
    creation. *)
Theorem generate_register_validate (now1 now2 now3 : Z) (entropy : nat → N)
    (toISOString : Z → string) (user k h : string) (t_opt : option Z)
    (ip : string) (userAgent : option string) (req2 req3 : Request)
    (d : Db) (bans : list string) :
  hwids_of (banlist d) = Hwids bans →
  api_enabled d = true →
  h ∉ bans →
  well_formed req2 k h →
  well_formed req3 k h →
  licenses d !! k = None →
  ¬ held_elsewhere (licenses d) k h →
  (∀ t, t_opt = Some t → (now2 ≤ t)%Z ∧ (now3 ≤ t)%Z) →
  let d1 := db (run (admin_generate_license reliable now1 entropy toISOString user
                       (Some k) (Some <$> t_opt) ip userAgent) d).2 in
  let r2 := run (api_register reliable now2 req2) d1 in
  let r3 := run (api_validate reliable now3 req3) (db r2.2) in
  r2.1 = Ok SUCCESS ∧ r3.1 = Ok VALID.
Proof.
  intros Hb He Hn Hwf2 Hwf3 Hnone Hheld Ht d1 r2 r3.
  assert (k ≠ "") as Hk by apply Hwf2.
  destruct (admin_generate_license_reliable now1 entropy toISOString user k t_opt ip
              userAgent d Hk Hnone) as (_ & E2 & E3 & E4).
  fold d1 in E2, E3, E4.
  set (lic := fresh_license now1 (from_option ExpiryDate ExpiryNull t_opt) user None) in *.
  assert (hwids_of (banlist d1) = Hwids bans) as Hb1 by by rewrite E3.
  assert (api_enabled d1 = true) as He1 by (unfold api_enabled in *; by rewrite E4).
  assert (licenses d1 !! k = Some lic) as Hl1 by by rewrite E2, lookup_insert_eq.
  assert (∀ now, (∀ t, t_opt = Some t → (now ≤ t)%Z) → isLicenseExpired now lic = false)
    as Hfresh.
  { intros now Hle. unfold isLicenseExpired, lic. cbn. destruct t_opt as [t|]; [|done].
    cbn. case_bool_decide; [|done]. specialize (Hle t eq_refl). lia. }
  destruct (api_register_reliable now2 req2 k h d1 bans Hwf2 Hb1) as (F1 & F2 & F3 & F4).
  fold r2 in F1, F2, F3, F4.
  assert (register_on d1 bans k now2 h = SUCCESS) as S2.
  { unfold register_on. rewrite He1. apply register_decision_success_iff.
    - done.
    - exists lic. split; [done|]. split; [apply Hfresh; intros t E; by apply Ht|].
      by apply unbound_not_bound_to_other.
    - apply not_held_not_in_use. rewrite E2. by rewrite held_elsewhere_insert. }
  rewrite S2 in F1, F2. rewrite Hl1 in F2. split; [done|].
  assert (hwids_of (banlist (db r2.2)) = Hwids bans) as Hb2 by by rewrite F3.
  destruct (api_validate_reliable now3 req3 k h (db r2.2) bans Hwf3 Hb2) as (G1 & _).
  fold r3 in G1. rewrite G1. f_equal. unfold spec_validate.
  assert (api_enabled (db r2.2) = true) as -> by (unfold api_enabled in *; by rewrite F4).
  cbn [negb]. rewrite bool_decide_eq_false_2 by done.
  rewrite F2, lookup_insert_eq.
  rewrite (isLicenseExpired_expiry now3 _ lic) by done.
  rewrite Hfresh by (intros t E; by apply Ht).
  by rewrite bool_decide_eq_true_2.
Qed.

Lemma guard_well_formed req :
  negb (truthy (q_license req)) || negb (truthy (q_hwid req)) = false →
  ∃ license h, well_formed req license h.
Proof.
  unfold well_formed, truthy.
  destruct (q_license req) as [license|]; [|done].
  destruct (q_hwid req) as [h|]; [|by rewrite orb_true_r].
  destruct (bool_decide_reflect (license = "")); [done|].
  destruct (bool_decide_reflect (h = "")); [done|].
  intros _. by exists license, h.
Qed.

(** What [/api/register] can do to the store, under any pattern of failing
    accesses: nothing to the ban list and the settings, and to the licenses
    either nothing or the write of [registered] over the record read. *)
Lemma api_register_effect f now req d :
  let r := run (api_register f now req) d in
  banlist (db r.2) = banlist d ∧
  settings (db r.2) = settings d ∧
  (licenses (db r.2) = licenses d ∨
   ∃ license h lic,
     well_formed req license h ∧
     licenses d !! license = Some lic ∧
     isLicenseExpired now lic = false ∧
     ¬ bound_to_other lic h ∧
     hwid_in_use (map_to_list (licenses_read f d)) license h = false ∧
     r.1 = Ok SUCCESS ∧
     licenses (db r.2) = <[license := registered now lic h req]> (licenses d)).
Proof.
  intros r. subst r. unfold run, api_register.
  destruct (negb (truthy (q_license req)) || negb (truthy (q_hwid req))) eqn:G;
    [cbn; auto|].
  destruct (guard_well_formed req G) as (license & h & Hwf).
  destruct (well_formed_guard _ _ _ Hwf) as (_ & Hl & Hh). rewrite Hl, Hh.
  unfold isHWIDBanned, includes, licenses_read. run_helpers.
  destruct (f OpLogActivity), (f OpGetSettings); cbn; auto.
  all: destruct (truthy_flag _); cbn; auto.
  all: run_helpers.
  all: destruct (f OpGetBanlist); [|destruct (hwids_of _); [| |cbn; by auto]].
  all: run_helpers.
  all: destruct (bool_decide _); [cbn; by auto|]; run_helpers.
  all: destruct (f (OpGetLicense _)); [cbn; by auto|].
  all: destruct (licenses d !! _) as [lic|] eqn:Hlic; [|cbn; by auto].
  all: destruct (isLicenseExpired now lic) eqn:Hexp; [cbn; by auto|].
  all: destruct (truthy (hwid lic) && negb (strict_eq (hwid lic) h)) eqn:Ho;
    [cbn; by auto|].
  all: run_helpers.
  all: destruct (f OpGetLicenses) eqn:Hfs; cbn.
  all: destruct (hwid_in_use _ _ _) eqn:Hu; [cbn; by auto|].
  all: run_helpers.
  all: destruct (f (OpSaveLicense _)); [cbn; by auto|]; cbn.
  all: rewrite write_license_banlist, write_license_settings.
  all: split; [done|]; split; [done|]; right.
  all: exists license, h, lic.
  all: rewrite write_license_registered by done.
  all: split; [exact Hwf|]; repeat split; try done.
  all: intros Hx%bound_to_other_test; congruence.
Qed.

Lemma api_validate_effect f now req d :
  let r := run (api_validate f now req) d in
  banlist (db r.2) = banlist d ∧
  settings (db r.2) = settings d ∧
  (licenses (db r.2) = licenses d ∨
   ∃ license lic,
     licenses d !! license = Some lic ∧
     licenses (db r.2) = <[license := set_lastValidated now lic]> (licenses d)).
Proof.
  intros r. subst r. unfold run, api_validate.
  destruct (negb (truthy (q_license req)) || negb (truthy (q_hwid req))) eqn:G;
    [cbn; auto|].
  unfold isHWIDBanned, includes. run_helpers.
  destruct (f OpLogActivity), (f OpGetSettings); cbn; auto.
  all: destruct (truthy_flag _); cbn; auto.
  all: run_helpers.
  all: destruct (f OpGetBanlist); [|destruct (hwids_of _); [| |cbn; by auto]].
  all: run_helpers.
  all: destruct (bool_decide _); [cbn; by auto|]; run_helpers.
  all: destruct (f (OpGetLicense _)); [cbn; by auto|].
  all: destruct (licenses d !! _) as [lic|] eqn:Hlic; [|cbn; by auto].
  all: destruct (isLicenseExpired now lic) eqn:Hexp; [cbn; by auto|].
  all: destruct (strict_eq _ _); [|cbn; by auto].
  all: run_helpers.
  all: destruct (f (OpSaveLicense _)); [cbn; by auto|]; cbn.
  all: rewrite write_license_banlist, write_license_settings.
  all: split; [done|]; split; [done|]; right.
  all: eexists _, lic; split; [exact Hlic|].
  all: by rewrite write_license_update.
Qed.

Lemma record_kept_refl a : record_kept a a.
Proof. by repeat split. Qed.

Lemma insert_keeps_records (m : gmap string License) k old new :
  m !! k = Some old → record_kept old new →
  (∀ k', m !! k' = None → <[k := new]> m !! k' = None) ∧
  (∀ k' lic, m !! k' = Some lic →
     ∃ lic', <[k := new]> m !! k' = Some lic' ∧ record_kept lic lic').
Proof.
  intros Hk Hkept. split.
  - intros k' Hn. destruct (decide (k = k')) as [<-|Hne]; [congruence|].
    by rewrite lookup_insert_ne.
  - intros k' lic Hl. destruct (decide (k = k')) as [<-|Hne].
    + exists new. rewrite lookup_insert_eq. split; [done|]. congruence.
    + exists lic. rewrite lookup_insert_ne by done. split; [done|apply record_kept_refl].
Qed.

(** X11. Whatever the request and whichever store accesses fail, validate and
    register leave the ban list and the settings alone, create and remove no
    license, and keep the expiry, the creation data and the batch of every
    record; a history is only extended. *)
Theorem api_calls_keep_records (f : StoreOp → bool) (now : Z) (req : Request) (d : Db) :
  let keeps (d' : Db) :=
    banlist d' = banlist d ∧ settings d' = settings d ∧
    (∀ k, licenses d !! k = None → licenses d' !! k = None) ∧
    (∀ k lic, licenses d !! k = Some lic →
       ∃ lic', licenses d' !! k = Some lic' ∧ record_kept lic lic') in
  keeps (db (run (api_validate f now req) d).2) ∧
  keeps (db (run (api_register f now req) d).2).
Proof.
  cbv zeta. split.
  - destruct (api_validate_effect f now req d) as (Hb & Hs & [-> | (k & lic & Hl & ->)]).
    + do 2 (split; [done|]). split; [done|]. intros k lic Hl. exists lic.
      split; [done|apply record_kept_refl].
    + do 2 (split; [done|]). apply (insert_keeps_records _ _ lic); [done|].
      by repeat split.
  - destruct (api_register_effect f now req d)
      as (Hb & Hs & [-> | (k & h & lic & _ & Hl & _ & _ & _ & _ & ->)]).
    + do 2 (split; [done|]). split; [done|]. intros k lic Hl. exists lic.
      split; [done|apply record_kept_refl].
    + do 2 (split; [done|]). apply (insert_keeps_records _ _ lic); [done|].
      repeat split; try done. cbn. by apply prefix_app_r.
Qed.

(** X12. If no non-empty HWID is bound to two licenses, this still holds after
    validate, under any failing accesses, and after register, as long as the
    read of all licenses does not fail. *)
Theorem api_calls_keep_hwids_unique (f : StoreOp → bool) (now : Z) (req : Request)
    (d : Db) :
  hwids_unique (licenses d) →
  hwids_unique (licenses (db (run (api_validate f now req) d).2)) ∧
  (f OpGetLicenses = false →
   hwids_unique (licenses (db (run (api_register f now req) d).2))).
Proof.
  intros Hu. split.
  - intros k1 k2 r1 r2 h H1 H2 Hh1 Hh2 Hne.
    pose proof (validate_never_binds f now req d k1) as E1.
    pose proof (validate_never_binds f now req d k2) as E2.
    rewrite H1 in E1. rewrite H2 in E2. cbn in E1, E2.
    destruct (licenses d !! k1) as [o1|] eqn:O1; [|done].
    destruct (licenses d !! k2) as [o2|] eqn:O2; [|done].
    cbn in E1, E2. apply (Hu k1 k2 o1 o2 h); congruence.
  - intros Hf.
    destruct (api_register_effect f now req d)
      as (_ & _ & [-> | (k & h & lic & Hwf & Hl & _ & _ & Hscan & _ & ->)]); [done|].
    unfold licenses_read in Hscan. rewrite Hf in Hscan.
    assert (¬ held_elsewhere (licenses d) k h) as Hfree.
    { intros Hx%hwid_in_use_spec. congruence. }
    intros k1 k2 r1 r2 h' H1 H2 Hh1 Hh2 Hne.
    destruct (decide (k1 = k2)) as [|Hk]; [done|]. exfalso.
    destruct (decide (k = k1)) as [<-|N1]; destruct (decide (k = k2)) as [<-|N2];
      try done.
    + rewrite lookup_insert_eq in H1. rewrite lookup_insert_ne in H2 by done.
      injection H1 as <-. cbn in Hh1. injection Hh1 as <-.
      apply Hfree. by exists k2, r2.
    + rewrite lookup_insert_eq in H2. rewrite lookup_insert_ne in H1 by done.
      injection H2 as <-. cbn in Hh2. injection Hh2 as <-.
      apply Hfree. by exists k1, r1.
    + rewrite lookup_insert_ne in H1, H2 by done.
      by apply Hk, (Hu k1 k2 r1 r2 h').
Qed.

Lemma spec_validate_valid e bans record now h :
  spec_validate e bans record now h = VALID →
  e = true ∧ (h ∉ bans) ∧
  ∃ lic, record = Some lic ∧ isLicenseExpired now lic = false ∧ hwid lic = Some h.
Proof.
  unfold spec_validate. destruct e; [|done]. cbn [negb].
  destruct (bool_decide_reflect (h ∈ bans)); [done|].
  destruct record as [lic|]; [|done].
  destruct (isLicenseExpired now lic) eqn:He; [done|].
  destruct (bool_decide_reflect (hwid lic = Some h)); [|done].
  intros _. split; [done|]. split; [done|]. by exists lic.
Qed.

Lemma register_decision_success e bans record u now h :
  register_decision e bans record u now h = SUCCESS →
  e = true ∧ (h ∉ bans) ∧ u = false ∧
  ∃ lic, record = Some lic ∧ isLicenseExpired now lic = false ∧
         ¬ bound_to_other lic h.
Proof.
  unfold register_decision. destruct e; [|done]. cbn [negb].
  destruct (bool_decide_reflect (h ∈ bans)); [done|].
  destruct record as [lic|]; [|done].
  destruct (isLicenseExpired now lic) eqn:He; [done|].
  destruct (truthy (hwid lic) && negb (strict_eq (hwid lic) h)) eqn:Hb; [done|].
  destruct u; [done|].
  intros _. do 3 (split; [done|]). exists lic. do 2 (split; [done|]).
  intros Hx%bound_to_other_test. congruence.
Qed.

Lemma enabled_read_true f d :
  enabled_read f d = true → f OpGetSettings = false ∧ api_enabled d = true.
Proof. unfold enabled_read. by destruct (f OpGetSettings). Qed.

Lemma license_read_some f d license lic :
  license_read f d license = Some lic → licenses d !! license = Some lic.
Proof. unfold license_read. by destruct (f (OpGetLicense license)). Qed.

(** X13. Whichever store accesses fail, VALID is answered only for an enabled
    API and an unexpired record bound to the candidate HWID, and SUCCESS only
    for an enabled API and an unexpired record not bound to another HWID. *)
Theorem positive_replies_are_sound (f : StoreOp → bool) (now : Z) (req : Request)
    (d : Db) :
  ((run (api_validate f now req) d).1 = Ok VALID →
   ∃ license h lic,
     well_formed req license h ∧ api_enabled d = true ∧
     licenses d !! license = Some lic ∧
     isLicenseExpired now lic = false ∧ hwid lic = Some h) ∧
  ((run (api_register f now req) d).1 = Ok SUCCESS →
   ∃ license h lic,
     well_formed req license h ∧ api_enabled d = true ∧
     licenses d !! license = Some lic ∧
     isLicenseExpired now lic = false ∧ ¬ bound_to_other lic h).
Proof.
  split; intros Hr.
  - destruct (negb (truthy (q_license req)) || negb (truthy (q_hwid req))) eqn:G.
    { unfold run, api_validate in Hr. rewrite G in Hr. done. }
    destruct (guard_well_formed req G) as (license & h & Hwf).
    rewrite (api_validate_reply f now req license h d Hwf) in Hr.
    injection Hr as Hr. destruct (banlist_read f d) as [bans|s|]; [| |by case_match].
    all: apply spec_validate_valid in Hr as (He & _ & lic & Hl & Hx & Hh).
    all: apply enabled_read_true in He as [_ He]; apply license_read_some in Hl.
    all: by exists license, h, lic.
  - destruct (negb (truthy (q_license req)) || negb (truthy (q_hwid req))) eqn:G.
    { unfold run, api_register in Hr. rewrite G in Hr. done. }
    destruct (guard_well_formed req G) as (license & h & Hwf).
    rewrite (api_register_reply f now req license h d Hwf) in Hr.
    injection Hr as Hr. destruct (banlist_read f d) as [bans|s|]; [| |by case_match].
    all: apply register_decision_success in Hr as (He & _ & _ & lic & Hl & Hx & Ho).
    all: apply enabled_read_true in He as [_ He]; apply license_read_some in Hl.
    all: by exists license, h, lic.
Qed.

(** X10. After register has answered SUCCESS for a device, validate answers
    VALID for that device while the license is not expired; for any other
    device that is not banned validate answers HWID_MISMATCH and register
    answers ALREADY_REGISTERED. *)
Theorem registered_device_validates (now1 now2 : Z) (req1 req2 : Request)
    (license h : string) (d : Db) (bans : list string) :
  well_formed req1 license h →
  well_formed req2 license h →
  hwids_of (banlist d) = Hwids bans →
  let r1 := run (api_register reliable now1 req1) d in
  r1.1 = Ok SUCCESS →
  (∀ lic, licenses d !! license = Some lic → isLicenseExpired now2 lic = false) →
  (run (api_validate reliable now2 req2) (db r1.2)).1 = Ok VALID ∧
  (∀ req' h', well_formed req' license h' → h' ≠ h → h' ∉ bans →
     (run (api_validate reliable now2 req') (db r1.2)).1 = Ok HWID_MISMATCH ∧
     (run (api_register reliable now2 req') (db r1.2)).1 = Ok ALREADY_REGISTERED).
Proof.
  intros Hwf1 Hwf2 Hb r1 Hs Hexp.
  destruct (api_register_reliable now1 req1 license h d bans Hwf1 Hb) as (E1 & E2 & E3 & E4).
  fold r1 in E1, E2, E3, E4. rewrite Hs in E1. injection E1 as E1. symmetry in E1.
  rewrite E1 in E2.
  destruct (register_on_success _ _ _ _ _ E1) as (He & Hban & lic & Hl & _).
  rewrite Hl in E2.
  assert (hwids_of (banlist (db r1.2)) = Hwids bans) as Hb' by by rewrite E3.
  assert (api_enabled (db r1.2) = true) as He'.
  { unfold api_enabled in *. by rewrite E4. }
  assert (licenses (db r1.2) !! license = Some (registered now1 lic h req1)) as Hl'.
  { by rewrite E2, lookup_insert_eq. }
  assert (isLicenseExpired now2 (registered now1 lic h req1) = false) as Hx'.
  { rewrite (isLicenseExpired_expiry now2 _ lic) by done. by apply Hexp. }
  assert (h ≠ "") as Hh by apply Hwf1.
  split.
  - destruct (api_validate_reliable now2 req2 license h _ bans Hwf2 Hb') as (-> & _).
    unfold spec_validate. rewrite He', Hl', Hx'. cbn [negb].
    by rewrite bool_decide_eq_false_2, bool_decide_eq_true_2.
  - intros req' h' Hwf' Hne Hnb. split.
    + destruct (api_validate_reliable now2 req' license h' _ bans Hwf' Hb') as (-> & _).
      unfold spec_validate. rewrite He', Hl', Hx'. cbn [negb].
      rewrite bool_decide_eq_false_2 by done.
      rewrite bool_decide_eq_false_2; [done|]. cbn. congruence.
    + destruct (api_register_reliable now2 req' license h' _ bans Hwf' Hb') as (-> & _).
      rewrite (register_on_passed _ _ _ _ _ (registered now1 lic h req1)) by done.
      assert (bound_to_other (registered now1 lic h req1) h') as Ho by by exists h.
      apply bound_to_other_test in Ho. by rewrite Ho.
Qed.

(** X14. When the read of all licenses fails while the other accesses succeed,
    register does not see that another license holds the HWID: it answers
    SUCCESS and binds, and two licenses then share the HWID. *)
Theorem failed_scan_misses_conflict (f : StoreOp → bool) (now : Z) (req : Request)
    (license h k' : string) (d : Db) (bans : list string) (lic lic' : License) :
  well_formed req license h →
  f OpGetSettings = false → f OpGetBanlist = false →
  f (OpGetLicense license) = false → f (OpSaveLicense license) = false →
  f OpGetLicenses = true →
  api_enabled d = true →
  hwids_of (banlist d) = Hwids bans →
  h ∉ bans →
  licenses d !! license = Some lic →
  unbound lic →
  isLicenseExpired now lic = false →
  k' ≠ license →
  licenses d !! k' = Some lic' →
  hwid lic' = Some h →
  let r := run (api_register f now req) d in
  r.1 = Ok SUCCESS ∧
  hwid <$> licenses (db r.2) !! license = Some (Some h) ∧
  hwid <$> licenses (db r.2) !! k' = Some (Some h) ∧
  ¬ hwids_unique (licenses (db r.2)).
Proof.
  intros Hwf F1 F2 F3 F4 F5 He Hb Hn Hl Hu Hx Hk Hl' Hh' r.
  assert (r.1 = Ok SUCCESS ∧
          licenses (db r.2) = <[license := registered now lic h req]> (licenses d))
    as [E1 E2].
  { subst r. destruct (well_formed_guard _ _ _ Hwf) as (G & Gl & Gh).
    unfold run, api_register, isHWIDBanned, includes. rewrite G, Gl, Gh.
    unfold api_enabled in He. run_helpers.
    destruct (f OpGetSettings); [done|]. destruct (f OpLogActivity); cbn.
    all: rewrite He; cbn; run_helpers.
    all: destruct (f OpGetBanlist); [done|]; rewrite Hb; run_helpers.
    all: rewrite (bool_decide_eq_false_2 _ Hn); run_helpers.
    all: destruct (f (OpGetLicense license)); [done|]; rewrite Hl, Hx.
    all: unfold unbound in Hu; rewrite Hu; cbn [andb]; run_helpers.
    all: destruct (f OpGetLicenses); [|done].
    all: rewrite map_to_list_empty; cbn; run_helpers.
    all: destruct (f (OpSaveLicense license)); [done|]; cbn.
    all: by rewrite write_license_registered. }
  split; [done|]. rewrite E2.
  assert (h ≠ "") as Hne by apply Hwf.
  split; [by rewrite lookup_insert_eq|].
  split; [rewrite lookup_insert_ne, Hl' by done; cbn; by rewrite Hh'|].
  intros Huniq. apply Hk.
  apply (Huniq k' license lic' (registered now lic h req) h); try done.
  - by rewrite lookup_insert_ne.
  - by rewrite lookup_insert_eq.
Qed.

(** ** Elapsed time *)

(** X15. For the time values of two valid dates less than 9 * 10^15 ms
    apart, [formatTimeAgo] shows the largest unit that is not zero: below one
    minute (a date in the future included) "Just now", then 1 to 59 minutes,
    1 to 23 hours, and from one day on the number of days. *)
Theorem formatTimeAgo_units (now date : Z) :
  (-8640000000000000 ≤ now ≤ 8640000000000000)%Z →
  (-8640000000000000 ≤ date ≤ 8640000000000000)%Z →
  (now - date < 9000000000000000)%Z →
  let diff := (now - date)%Z in
  ((diff < 60000)%Z → formatTimeAgo now date = "Just now") ∧
  ((60000 ≤ diff < 3600000)%Z →
   ∃ m, (1 ≤ m ≤ 59)%Z ∧ m = (diff / 60000)%Z ∧
        formatTimeAgo now date = pretty m +:+ "m ago") ∧
  ((3600000 ≤ diff < 86400000)%Z →
   ∃ h, (1 ≤ h ≤ 23)%Z ∧ h = (diff / 3600000)%Z ∧
        formatTimeAgo now date = pretty h +:+ "h ago") ∧
  ((86400000 ≤ diff)%Z →
   ∃ n, (1 ≤ n ≤ 104166666)%Z ∧ n = (diff / 86400000)%Z ∧
        formatTimeAgo now date = pretty n +:+ "d ago").
Proof.
  intros _ _ Hrange diff. unfold formatTimeAgo. fold diff.
  assert (diff < 9000000000000000)%Z as Hr by done.
  generalize dependent diff. clear. intros diff Hr.
  pose proof (Z.div_mod diff 60000) as M.
  pose proof (Z.mod_pos_bound diff 60000) as M'.
  pose proof (Z.div_mod diff 3600000) as H.
  pose proof (Z.mod_pos_bound diff 3600000) as H'.
  pose proof (Z.div_mod diff 86400000) as D.
  pose proof (Z.mod_pos_bound diff 86400000) as D'.
  repeat split.
  - intros Hd. rewrite !bool_decide_eq_false_2 by lia. done.
  - intros Hd. exists (diff / 60000)%Z. split; [lia|]. split; [done|].
    rewrite (bool_decide_eq_false_2 (diff / 86400000 > 0)%Z) by lia.
    rewrite (bool_decide_eq_false_2 (diff / 3600000 > 0)%Z) by lia.
    by rewrite bool_decide_eq_true_2 by lia.
  - intros Hd. exists (diff / 3600000)%Z. split; [lia|]. split; [done|].
    rewrite (bool_decide_eq_false_2 (diff / 86400000 > 0)%Z) by lia.
    by rewrite bool_decide_eq_true_2 by lia.
  - intros Hd. exists (diff / 86400000)%Z. split; [lia|]. split; [done|].
    by rewrite bool_decide_eq_true_2 by lia.
Qed.

(** ** License information *)

(** X16. [/api/license-info] never changes the database, the activity log
    included, and never answers with its error text; without a key it reads
    nothing; with a key it attempts the read of that one record only, so it
    reports the status also when the API is disabled or the device banned,
    and answers not-found when the record is missing or its read fails. *)
Theorem license_info_only_reads (f : StoreOp → bool) (now : Z) (q : option string)
    (d : Db) :
  let r := run (api_license_info f now q) d in
  db r.2 = d ∧
  r.1 ≠ Ok InfoFailed ∧
  (truthy q = false → r.1 = Ok InfoNotFound ∧ trace r.2 = []) ∧
  (∀ k, q = Some k → k ≠ "" →
     trace r.2 = [OpGetLicense k] ∧
     r.1 = Ok (match license_read f d k with
               | Some lic => InfoStatus (license_status now lic) lic
               | None => InfoNotFound
               end)).
Proof.
  intros r. subst r. unfold run, api_license_info, license_read.
  destruct q as [k|]; cbn [truthy negb default]; [|by cbn; repeat split].
  destruct (bool_decide_reflect (k = "")) as [->|Hk]; cbn [negb].
  { cbn. repeat split; try done; congruence. }
  run_helpers.
  assert (∀ k', Some k = Some k' → k' = k) as Hinj by (intros k' [= <-]; done).
  destruct (f (OpGetLicense k)) eqn:Hf; [|destruct (licenses d !! k) as [lic|] eqn:Hl];
    cbn; repeat split; try done.
  all: try (rewrite (Hinj _ H); done).
  all: rewrite (Hinj _ H), Hf, ?Hl; done.
Qed.

Lemma license_status_cases (now : Z) (lic : License) :
  (license_status now lic = "EXPIRED" ↔ isLicenseExpired now lic = true) ∧
  (license_status now lic = "ACTIVE" ↔
   isLicenseExpired now lic = false ∧ truthy (hwid lic) = true) ∧
  (license_status now lic = "INACTIVE" ↔
   isLicenseExpired now lic = false ∧ unbound lic).
Proof.
  unfold license_status, unbound.
  destruct (isLicenseExpired now lic), (truthy (hwid lic)); repeat split; try done.
  all: by intros [? ?].
Qed.

(** ** Sessions *)

Lemma login_opens_admin_session (f : StoreOp → bool) (now : Z) (U P : string)
    (session username password : option string) (ip : string)
    (userAgent : option string) (d : Db) :
  let r := run (admin_login f now U P session username password ip userAgent) d in
  (username = Some U ∧ password = Some P →
   r.1 = Ok (LoginToAdmin, Some U)) ∧
  (¬ (username = Some U ∧ password = Some P) →
   r.1 = Ok (LoginInvalid, session)) ∧
  licenses (db r.2) = licenses d ∧ banlist (db r.2) = banlist d ∧
  settings (db r.2) = settings d.
Proof.
  intros r. subst r. unfold run, admin_login, strict_eq.
  destruct (bool_decide_reflect (username = Some U)) as [Hu|Hu];
    destruct (bool_decide_reflect (password = Some P)) as [Hp|Hp]; cbn [andb];
    run_helpers; destruct (f OpLogActivity); cbn; repeat split; try done; tauto.
Qed.

Lemma require_login_guards {A : Type} (U : string) (session : option string)
    (next : M A) (d : Db) :
  (session = Some U →
   run (requireLogin U session next) d =
   match run next d with
   | (Ok a, w) => (Ok (Some a), w)
   | (Thrown, w) => (Thrown, w)
   end) ∧
  (session ≠ Some U →
   run (requireLogin U session next) d = (Ok None, mkWorld d [] 0)).
Proof.
  unfold run, requireLogin, strict_eq. split; intros H.
  - rewrite bool_decide_eq_true_2 by done. rewrite bind_run.
    by destruct (next _) as [[a|] w].
  - by rewrite bool_decide_eq_false_2.
Qed.

(** X17. Sessions: the configured credentials, and nothing else, open the
    admin session; a failed attempt leaves the session as it was; a handler
    behind [requireLogin] runs for the admin session and, for any other
    session, is not run at all, the store being left untouched; after logout
    there is no session. *)
Theorem admin_session_flow {A : Type} (f : StoreOp → bool) (now : Z) (U P : string)
    (session username password : option string) (ip : string)
    (userAgent : option string) (next : M A) (d : Db) :
  let r := run (admin_login f now U P session username password ip userAgent) d in
  (username = Some U ∧ password = Some P →
   r.1 = Ok (LoginToAdmin, Some U) ∧
   ∀ d', run (requireLogin U (Some U) next) d' =
         match run next d' with
         | (Ok a, w) => (Ok (Some a), w)
         | (Thrown, w) => (Thrown, w)
         end) ∧
  (¬ (username = Some U ∧ password = Some P) → r.1 = Ok (LoginInvalid, session)) ∧
  (∀ d', session ≠ Some U →
         run (requireLogin U session next) d' = (Ok None, mkWorld d' [] 0)) ∧
  (∀ d', (run (admin_logout f now ip userAgent) d').1 = Ok None ∧
         run (requireLogin U None next) d' = (Ok None, mkWorld d' [] 0)).
Proof.
  intros r.
  destruct (login_opens_admin_session f now U P session username password ip userAgent d)
    as (H1 & H2 & _).
  fold r in H1, H2. split; [|split; [done|split]].
  - intros Hc. split; [by apply H1|]. intros d'.
    by apply (require_login_guards U (Some U) next d').
  - intros d' Hs. by apply (require_login_guards U session next d').
  - intros d'. split.
    + unfold run, admin_logout. run_helpers. by destruct (f OpLogActivity).
    + by apply (require_login_guards U None next d').
Qed.

(** ** Dashboard statistics *)

Lemma count_license_fold now (l : list License) (acc : Stats) :
  foldl (count_license now) acc l =
  mkStats (totalLicenses acc)
    (activeLicenses acc + length (filter (counted_active now) l))
    (expiredLicenses acc + length (filter (counted_expired now) l))
    (recentActivity acc + length (filter (counted_recent now) l)).
Proof.
  revert acc. induction l as [|lic l IH]; intros acc.
  - destruct acc. cbn. f_equal; lia.
  - cbn [foldl]. rewrite IH. clear IH. rewrite !filter_cons.
    unfold count_license.
    destruct (decide (counted_active now lic)) as [[Hb He]|Ha];
      destruct (decide (counted_expired now lic)) as [[Hb' He']|Hx];
      try congruence.
    all: destruct (truthy (hwid lic)) eqn:Hb1;
      destruct (isLicenseExpired now lic) eqn:He1; try congruence;
      try (exfalso; apply Ha; done); try (exfalso; apply Hx; done).
    all: destruct (decide (counted_recent now lic)) as [(t & Ht & Hr)|Hr].
    all: try (rewrite Ht; rewrite bool_decide_eq_true_2 by lia; cbn; f_equal; lia).
    all: destruct (lastValidated lic) as [t|] eqn:Ht; [|cbn; f_equal; lia].
    all: rewrite bool_decide_eq_false_2; [cbn; f_equal; lia|].
    all: intros Hgt; apply Hr; exists t; split; [done|lia].
Qed.

Lemma counted_partition now (l : list License) :
  length (filter (counted_active now) l) + length (filter (counted_expired now) l) +
  length (filter (λ lic, truthy (hwid lic) = false) l) = length l.
Proof.
  induction l as [|lic l IH]; [done|]. rewrite !filter_cons. cbn [length].
  destruct (decide (counted_active now lic)) as [[Hb He]|Ha];
    destruct (decide (counted_expired now lic)) as [[Hb' He']|Hx];
    destruct (decide (truthy (hwid lic) = false)) as [Hu|Hu];
    cbn [length]; try congruence; try lia.
  exfalso. destruct (truthy (hwid lic)) eqn:Hb; [|done].
  destruct (isLicenseExpired now lic) eqn:He; [by apply Hx|by apply Ha].
Qed.

Lemma filter_ext_length {A} (P Q : A → Prop) `{∀ x, Decision (P x)}
    `{∀ x, Decision (Q x)} (l : list A) :
  (∀ x, P x ↔ Q x) → length (filter P l) = length (filter Q l).
Proof. intros HPQ. by rewrite (list_filter_iff P Q l HPQ). Qed.

(** X18. The dashboard counters: the total is the number of records; active
    counts the records whose status is ACTIVE; expired counts the bound
    records whose status is EXPIRED, so an expired record that was never
    bound is in neither; active, expired and unbound records add up to the
    total; recent is at most the total. *)
Theorem dashboard_stats_counts (now : Z) (m : gmap string License) :
  let s := dashboard_stats now m in
  let records := (map_to_list m).*2 in
  totalLicenses s = size m ∧
  activeLicenses s = length (filter (λ lic, license_status now lic = "ACTIVE") records) ∧
  expiredLicenses s =
    length (filter (λ lic, license_status now lic = "EXPIRED" ∧ truthy (hwid lic) = true)
              records) ∧
  recentActivity s = length (filter (counted_recent now) records) ∧
  activeLicenses s + expiredLicenses s +
    length (filter (λ lic, truthy (hwid lic) = false) records) = size m ∧
  (recentActivity s ≤ size m)%nat.
Proof.
  intros s records. subst s. unfold dashboard_stats. fold records.
  rewrite count_license_fold. cbn.
  assert (length records = size m) as Hlen.
  { unfold records. by rewrite length_fmap, length_map_to_list. }
  split; [done|]. split; [|split; [|split; [done|split]]].
  - apply filter_ext_length. intros lic.
    destruct (license_status_cases now lic) as (_ & H2 & _).
    unfold counted_active. rewrite H2. tauto.
  - apply filter_ext_length. intros lic.
    destruct (license_status_cases now lic) as (H1 & _ & _).
    unfold counted_expired. rewrite H1. tauto.
  - rewrite <- Hlen. apply counted_partition.
  - rewrite <- Hlen. apply length_filter.
Qed.

(** ** Generated keys *)

Lemma below_16 (P : N → Prop) :
  (∀ k, (k < 16)%nat → P (N.of_nat k)) → ∀ n, (n < 16)%N → P n.
Proof.
  intros H n Hn. rewrite <- (N2Nat.id n). apply H. lia.
Qed.

Lemma nibble_upper_hex n :
  (n < 16)%N →
  is_upper_hex (upper_char (hex_digit n)) = true ∧
  nibble_of (upper_char (hex_digit n)) = n.
Proof.
  revert n. apply below_16. intros k Hk.
  do 16 (destruct k as [|k]; [by vm_compute|]). lia.
Qed.

Lemma byte_nibbles b : (b < 256)%N → (b / 16 < 16)%N ∧ (b mod 16 < 16)%N.
Proof.
  intros Hb. split.
  - apply N.Div0.div_lt_upper_bound. lia.
  - apply N.mod_lt. lia.
Qed.

Lemma block_shape (bytes : list N) :
  Forall (λ b, (b < 256)%N) bytes →
  String.length (toUpperCase (toHex bytes)) = 2 * length bytes ∧
  all_upper_hex (toUpperCase (toHex bytes)) = true.
Proof.
  induction 1 as [|b bytes Hb _ [IH1 IH2]]; [done|].
  destruct (byte_nibbles b Hb) as [H1 H2].
  destruct (nibble_upper_hex _ H1) as [U1 _], (nibble_upper_hex _ H2) as [U2 _].
  cbn [toHex toUpperCase String.length all_upper_hex length].
  rewrite IH1, U1, U2, IH2. split; [lia|done].
Qed.

Lemma block_injective (a b : list N) :
  Forall (λ x, (x < 256)%N) a → Forall (λ x, (x < 256)%N) b →
  toUpperCase (toHex a) = toUpperCase (toHex b) → a = b.
Proof.
  intros Ha. revert b. induction Ha as [|x a Hx _ IH]; intros b Hb.
  - destruct b; [done|]. cbn. discriminate.
  - destruct Hb as [|y b Hy Hb]; [cbn; discriminate|].
    cbn [toHex toUpperCase]. intros [= E1 E2 E3].
    destruct (byte_nibbles x Hx) as [X1 X2], (byte_nibbles y Hy) as [Y1 Y2].
    apply (f_equal nibble_of) in E1, E2.
    rewrite (proj2 (nibble_upper_hex _ X1)), (proj2 (nibble_upper_hex _ Y1)) in E1.
    rewrite (proj2 (nibble_upper_hex _ X2)), (proj2 (nibble_upper_hex _ Y2)) in E2.
    f_equal; [|by apply IH].
    rewrite (N.div_mod x 16), (N.div_mod y 16) by lia. by rewrite E1, E2.
Qed.

Lemma bytes_at_bounded entropy pos n :
  Forall (λ b, (b < 256)%N) (bytes_at entropy pos n) ∧
  length (bytes_at entropy pos n) = n.
Proof.
  unfold bytes_at. split.
  - apply Forall_forall. intros b [i [-> _]]%list_elem_of_fmap.
    apply N.mod_lt. lia.
  - by rewrite length_map, length_seq.
Qed.

Lemma generateSecureLicenseKey_run entropy prefix w :
  generateSecureLicenseKey entropy prefix w =
  (Ok (prefix +:+ "-" +:+ toUpperCase (toHex (bytes_at entropy (drawn w) 4)) +:+ "-" +:+
       toUpperCase (toHex (bytes_at entropy (drawn w + 4) 4))),
   mkWorld (db w) (trace w) (drawn w + 4 + 4)).
Proof. reflexivity. Qed.

(** X19. A generated key is the prefix, a dash, eight characters of [0-9A-F],
    a dash and eight more such characters; generating it draws eight random
    bytes and touches neither the database nor the access trace. *)
Theorem generated_key_shape (entropy : nat → N) (prefix : string) (w : World) :
  ∃ X Y,
    generateSecureLicenseKey entropy prefix w =
      (Ok (prefix +:+ "-" +:+ X +:+ "-" +:+ Y),
       mkWorld (db w) (trace w) (drawn w + 8)) ∧
    String.length X = 8 ∧ String.length Y = 8 ∧
    all_upper_hex X = true ∧ all_upper_hex Y = true.
Proof.
  rewrite generateSecureLicenseKey_run.
  destruct (bytes_at_bounded entropy (drawn w) 4) as [B1 L1].
  destruct (bytes_at_bounded entropy (drawn w + 4) 4) as [B2 L2].
  destruct (block_shape _ B1) as [S1 H1], (block_shape _ B2) as [S2 H2].
  exists (toUpperCase (toHex (bytes_at entropy (drawn w) 4))),
    (toUpperCase (toHex (bytes_at entropy (drawn w + 4) 4))).
  split; [|split; [|split; [|split]]].
  - f_equal. f_equal. lia.
  - by rewrite S1, L1.
  - by rewrite S2, L2.
  - done.
  - done.
Qed.

Lemma append_cancel_l (p s t : string) : p +:+ s = p +:+ t → s = t.
Proof. induction p as [|c p IH]; cbn; [done|]. intros [= E]. by apply IH. Qed.

Lemma append_same_length (x x' y y' : string) :
  String.length x = String.length x' → x +:+ y = x' +:+ y' → x = x' ∧ y = y'.
Proof.
  revert x'. induction x as [|c x IH]; intros [|c' x']; cbn; try done.
  intros [= Hl] [= -> E]. destruct (IH x' Hl E) as [-> ->]. done.
Qed.

Lemma bytes_at_split entropy pos :
  bytes_at entropy pos 8 = bytes_at entropy pos 4 ++ bytes_at entropy (pos + 4) 4.
Proof.
  unfold bytes_at. cbn. repeat (f_equal; try lia).
Qed.

(** X20. Under one prefix two generated keys are equal exactly when the eight
    random bytes drawn for them are equal. *)
Theorem generated_keys_equal_iff (e1 e2 : nat → N) (prefix : string) (w1 w2 : World) :
  (generateSecureLicenseKey e1 prefix w1).1 = (generateSecureLicenseKey e2 prefix w2).1 ↔
  bytes_at e1 (drawn w1) 8 = bytes_at e2 (drawn w2) 8.
Proof.
  rewrite !generateSecureLicenseKey_run, !bytes_at_split. cbn [fst].
  destruct (bytes_at_bounded e1 (drawn w1) 4) as [A1 LA1].
  destruct (bytes_at_bounded e1 (drawn w1 + 4) 4) as [A2 LA2].
  destruct (bytes_at_bounded e2 (drawn w2) 4) as [B1 LB1].
  destruct (bytes_at_bounded e2 (drawn w2 + 4) 4) as [B2 LB2].
  split.
  - intros [= E]. do 2 apply append_cancel_l in E.
    apply append_same_length in E as [E1 E2].
    + apply append_cancel_l in E2.
      apply (block_injective _ _ A1 B1) in E1.
      apply (block_injective _ _ A2 B2) in E2. by rewrite E1, E2.
    + pose proof (proj1 (block_shape _ A1)) as S1.
      pose proof (proj1 (block_shape _ B1)) as S2.
      rewrite LA1 in S1. rewrite LB1 in S2. exact (eq_trans S1 (eq_sym S2)).
  - intros E. apply app_inj_1 in E as [-> ->]; [done|lia].
Qed.

(** ** Bulk generation *)

Lemma write_license_activityLog k data d :
  activityLog (write_license k data d) = activityLog d.
Proof. unfold write_license. by destruct (licenses d !! k). Qed.

Lemma bulk_loop_run f now entropy n prefix user w :
  ∃ keys w',
    bulk_loop f now entropy n prefix user w = (Ok keys, w') ∧
    length keys = n ∧
    trace w' = trace w ++ (OpSaveLicense <$> keys) ∧
    drawn w' = drawn w + 8 * n ∧
    banlist (db w') = banlist (db w) ∧
    settings (db w') = settings (db w) ∧
    activityLog (db w') = activityLog (db w).
Proof.
  revert w. induction n as [|n IH]; intros w.
  - exists [], w. cbn. rewrite app_nil_r. repeat split; done || lia.
  - cbn [bulk_loop]. rewrite bind_run, generateSecureLicenseKey_run.
    set (key := _ +:+ _).
    rewrite bind_run, saveLicense_run.
    set (w1 := if f (OpSaveLicense key) then _ else _).
    destruct (IH w1) as (keys & w' & E & Hlen & Htr & Hdr & Hb & Hs & Ha).
    rewrite bind_run, E. exists (key :: keys), w'.
    assert (trace w1 = trace w ++ [OpSaveLicense key] ∧ drawn w1 = drawn w + 4 + 4 ∧
            banlist (db w1) = banlist (db w) ∧ settings (db w1) = settings (db w) ∧
            activityLog (db w1) = activityLog (db w)) as (T1 & D1 & B1 & S1 & A1).
    { subst w1. destruct (f (OpSaveLicense key)); cbn; [done|].
      by rewrite write_license_banlist, write_license_settings,
        write_license_activityLog. }
    split; [done|]. split; [cbn; lia|]. split.
    { rewrite Htr, T1. cbn. by rewrite <- app_assoc. }
    split; [lia|]. split; [congruence|]. split; congruence.
Qed.

(** X21. Bulk generation, whichever store accesses fail: a count above 100 is
    refused without touching anything; otherwise the accesses attempted are
    one license write per generated key, as many as the count (one when the
    count is missing or zero, none when it is negative, at most 100),
    followed by the activity log; no license is read, eight random bytes are
    drawn per key, and ban list and settings stay. *)
Theorem bulk_generate_bounds (f : StoreOp → bool) (now : Z) (entropy : nat → N)
    (user : string) (parsed_count : option Z) (body_prefix : option string)
    (ip : string) (userAgent : option string) (d : Db) :
  let count := match parsed_count with
               | None => 1%Z
               | Some c => if bool_decide (c = 0%Z) then 1%Z else c
               end in
  let r := run (admin_bulk_generate f now entropy user parsed_count body_prefix ip
                  userAgent) d in
  ((count > 100)%Z → r.1 = Ok AlertMaximum ∧ r.2 = mkWorld d [] 0) ∧
  ((count ≤ 100)%Z →
   r.1 = Ok Redirected ∧
   ∃ keys, length keys = Z.to_nat count ∧
           (length keys ≤ 100)%nat ∧
           trace r.2 = (OpSaveLicense <$> keys) ++ [OpLogActivity] ∧
           drawn r.2 = 8 * length keys ∧
           banlist (db r.2) = banlist d ∧ settings (db r.2) = settings d).
Proof.
  intros count r. subst r. unfold run, admin_bulk_generate. fold count.
  split; intros Hc.
  - rewrite bool_decide_eq_true_2 by done. by cbn.
  - rewrite bool_decide_eq_false_2 by lia. unfold try_catch.
    rewrite bind_run.
    destruct (bulk_loop_run f now entropy (Z.to_nat count) (or_default body_prefix "LIC")
                user (mkWorld d [] 0)) as (keys & w' & E & Hlen & Htr & Hdr & Hb & Hs & _).
    rewrite E. rewrite bind_run, logActivity_run. cbn [fst snd].
    split; [done|]. exists keys.
    split; [done|]. split; [lia|].
    destruct (f OpLogActivity); cbn; rewrite Htr, Hdr, Hlen, Hb, Hs; cbn;
      repeat split; done.
Qed.

(** ** Deleting licenses and handling reset requests *)

Lemma bindD_run {A B : Type} (m : D A) (k : A → D B) (s : Desk) :
  (m ≫= k) s =
  match m s with
  | (Ok a, s') => k a s'
  | (Thrown, s') => (Thrown, s')
  end.
Proof. reflexivity. Qed.

Lemma retD_run {A : Type} (a : A) (s : Desk) : (mret a : D A) s = (Ok a, s).
Proof. reflexivity. Qed.

Lemma lift_run {A : Type} (m : M A) (s : Desk) :
  lift m s = ((m (world s)).1, mkDesk (m (world s)).2 (hwidRequests s) (desk_trace s)).
Proof. unfold lift. by destruct (m (world s)). Qed.

Lemma deleteLicense_run df k s :
  deleteLicense df k s =
  (Ok (negb (df (OpDeleteLicense k))),
   if df (OpDeleteLicense k)
   then mkDesk (world s) (hwidRequests s) (desk_trace s ++ [OpDeleteLicense k])
   else mkDesk (with_db (λ d, set_licenses (delete k (licenses d)) d) (world s))
          (hwidRequests s) (desk_trace s ++ [OpDeleteLicense k])).
Proof.
  unfold deleteLicense, try_catchD, accessD. rewrite bindD_run.
  destruct (df (OpDeleteLicense k)); reflexivity.
Qed.

Lemma deleteHwidRequest_run df id s :
  deleteHwidRequest df id s =
  (Ok (negb (df (OpDeleteHwidRequest id))),
   if df (OpDeleteHwidRequest id)
   then mkDesk (world s) (hwidRequests s) (desk_trace s ++ [OpDeleteHwidRequest id])
   else mkDesk (world s) (delete id (hwidRequests s))
          (desk_trace s ++ [OpDeleteHwidRequest id])).
Proof.
  unfold deleteHwidRequest, try_catchD, accessD. rewrite bindD_run.
  destruct (df (OpDeleteHwidRequest id)); reflexivity.
Qed.

Lemma addHwidRequest_run df auto_id l h rs ipa ua s :
  addHwidRequest df auto_id l h rs ipa ua s =
  if df OpAddHwidRequest || bool_decide (is_Some (hwidRequests s !! auto_id))
  then (Ok None, mkDesk (world s) (hwidRequests s) (desk_trace s ++ [OpAddHwidRequest]))
  else (Ok (Some auto_id),
        mkDesk (world s)
          (<[auto_id := mkHwidRequest l h rs ipa ua "pending"]> (hwidRequests s))
          (desk_trace s ++ [OpAddHwidRequest])).
Proof.
  unfold addHwidRequest, try_catchD, accessD. rewrite bindD_run.
  destruct (df OpAddHwidRequest); [reflexivity|]. cbn [orb].
  rewrite bindD_run. unfold getsD. cbn [hwidRequests].
  destruct (bool_decide (is_Some (hwidRequests s !! auto_id))); reflexivity.
Qed.

Create Rewrite HintDb desk.
#[global] Hint Rewrite @bindD_run @retD_run @lift_run deleteLicense_run
  deleteHwidRequest_run addHwidRequest_run : desk.

Ltac run_desk :=
  unfold try_catchD; cbn; repeat (progress autorewrite with desk store; cbn).

Lemma admin_delete_license_reliable now license ip ua d reqs :
  let r := runD (admin_delete_license reliable no_desk_faults now license ip ua) d reqs in
  r.1 = Ok Redirected ∧
  licenses (db (world r.2)) = delete license (licenses d) ∧
  banlist (db (world r.2)) = banlist d ∧
  settings (db (world r.2)) = settings d ∧
  hwidRequests r.2 = reqs.
Proof.
  intros r. subst r. unfold runD, admin_delete_license. run_desk. done.
Qed.

(** X22. After the admin has deleted a license, the reset requests are as
    before and validate and register for that key answer INVALID_LICENSE
    (API enabled, device not banned). *)
Theorem deleted_license_is_invalid (now now2 : Z) (license h : string) (ip : string)
    (userAgent : option string) (req : Request) (d : Db)
    (reqs : gmap string HwidRequest) (bans : list string) :
  hwids_of (banlist d) = Hwids bans →
  api_enabled d = true →
  h ∉ bans →
  well_formed req license h →
  let r := runD (admin_delete_license reliable no_desk_faults now license ip userAgent)
             d reqs in
  let d' := db (world r.2) in
  r.1 = Ok Redirected ∧
  licenses d' = delete license (licenses d) ∧
  hwidRequests r.2 = reqs ∧
  (run (api_validate reliable now2 req) d').1 = Ok INVALID_LICENSE ∧
  (run (api_register reliable now2 req) d').1 = Ok INVALID_LICENSE.
Proof.
  intros Hb He Hn Hwf r d'.
  destruct (admin_delete_license_reliable now license ip userAgent d reqs)
    as (E1 & E2 & E3 & E4 & E5).
  fold r in E1, E2, E3, E4, E5. fold d' in E2, E3, E4.
  do 3 (split; [done|]).
  assert (hwids_of (banlist d') = Hwids bans) as Hb' by by rewrite E3.
  assert (api_enabled d' = true) as He' by (unfold api_enabled in *; by rewrite E4).
  assert (licenses d' !! license = None) as Hl by by rewrite E2, lookup_delete_eq.
  split.
  - destruct (api_validate_reliable now2 req license h d' bans Hwf Hb') as (-> & _).
    unfold spec_validate. rewrite He', Hl. cbn [negb]. by rewrite bool_decide_eq_false_2.
  - destruct (api_register_reliable now2 req license h d' bans Hwf Hb') as (-> & _).
    unfold register_on, register_decision. rewrite He', Hl. cbn [negb].
    by rewrite bool_decide_eq_false_2.
Qed.

(** X23. Deleting the license that holds a HWID releases the HWID: another
    license can then register it. *)
Theorem deleting_releases_hwid (now now2 : Z) (k1 k2 h : string) (ip : string)
    (userAgent : option string) (req : Request) (d : Db)
    (reqs : gmap string HwidRequest) (bans : list string) (lic2 : License) :
  hwids_of (banlist d) = Hwids bans →
  api_enabled d = true →
  h ∉ bans →
  well_formed req k2 h →
  k2 ≠ k1 →
  licenses d !! k2 = Some lic2 →
  ¬ bound_to_other lic2 h →
  isLicenseExpired now2 lic2 = false →
  (∀ k r, licenses d !! k = Some r → hwid r = Some h → k = k1 ∨ k = k2) →
  let d' := db (world (runD (admin_delete_license reliable no_desk_faults now k1 ip
                               userAgent) d reqs).2) in
  (run (api_register reliable now2 req) d').1 = Ok SUCCESS.
Proof.
  intros Hb He Hn Hwf Hk Hl2 Ho Hx Honly d'.
  destruct (admin_delete_license_reliable now k1 ip userAgent d reqs)
    as (_ & E2 & E3 & E4 & _).
  fold d' in E2, E3, E4.
  assert (hwids_of (banlist d') = Hwids bans) as Hb' by by rewrite E3.
  assert (api_enabled d' = true) as He' by (unfold api_enabled in *; by rewrite E4).
  destruct (api_register_reliable now2 req k2 h d' bans Hwf Hb') as (-> & _).
  f_equal. unfold register_on. rewrite He'. apply register_decision_success_iff.
  - done.
  - exists lic2. split; [by rewrite E2, lookup_delete_ne|done].
  - apply not_held_not_in_use. intros (k & r & Hne & Hlk & Hh). rewrite E2 in Hlk.
    apply lookup_delete_Some in Hlk as [Hne1 Hlk].
    destruct (Honly k r Hlk Hh); congruence.
Qed.

(** X24. A reset request with the license or the hwid missing is refused and
    nothing is stored or logged.  Otherwise the reply is REQUESTED whether or
    not the request could be stored, the licenses are not consulted or
    changed, and the request is stored as pending under the new identifier
    exactly when the write succeeds. *)
Theorem reset_request_is_recorded (f : StoreOp → bool) (df : DeskOp → bool) (now : Z)
    (auto_id : string) (body_license body_hwid body_reason : option string)
    (ip : string) (userAgent : option string) (d : Db)
    (reqs : gmap string HwidRequest) :
  let r := runD (api_request_hwid_reset f df now auto_id body_license body_hwid
                   body_reason ip userAgent) d reqs in
  (truthy body_license = false ∨ truthy body_hwid = false →
   r.1 = Ok MissingFields ∧ r.2 = mkDesk (mkWorld d [] 0) reqs []) ∧
  (∀ license h, body_license = Some license → license ≠ "" →
     body_hwid = Some h → h ≠ "" →
     licenses (db (world r.2)) = licenses d ∧
     banlist (db (world r.2)) = banlist d ∧
     trace (world r.2) = [OpLogActivity] ∧
     (df OpAddHwidRequest = false → reqs !! auto_id = None →
      r.1 = Ok (Requested (Some auto_id)) ∧
      hwidRequests r.2 =
        <[auto_id := mkHwidRequest license h (or_default body_reason "No reason provided")
                       ip (or_default userAgent "Unknown") "pending"]> reqs) ∧
     (df OpAddHwidRequest = true ∨ is_Some (reqs !! auto_id) →
      r.1 = Ok (Requested None) ∧ hwidRequests r.2 = reqs)).
Proof.
  intros r. subst r. unfold runD, api_request_hwid_reset. split.
  - intros H.
    assert (negb (truthy body_license) || negb (truthy body_hwid) = true) as ->.
    { destruct H as [-> | ->]; [done|]. by rewrite orb_true_r. }
    done.
  - intros license h -> Hl -> Hh. cbn [truthy default].
    rewrite !bool_decide_eq_false_2 by done. cbn [negb orb].
    run_desk.
    destruct (df OpAddHwidRequest) eqn:Hdf; cbn [orb].
    + run_desk. destruct (f OpLogActivity); cbn; repeat split; try done.
    + destruct (bool_decide_reflect (is_Some (reqs !! auto_id))) as [Ht|Ht]; run_desk.
      * destruct (f OpLogActivity); cbn; repeat split; try done.
        all: match goal with
             | Hn : _ !! _ = None |- _ => rewrite Hn in Ht; by destruct Ht
             end.
      * destruct (f OpLogActivity); cbn; repeat split; try done.
        all: match goal with
             | H : _ ∨ _ |- _ => destruct H; done
             end.
Qed.

(** X25. On a store that answers, approving a reset request removes the
    request and, when the license exists, unbinds it and appends one
    HWID_RESET_APPROVED entry to its history; denying removes the request
    and changes no license. *)
Theorem approve_and_deny (now : Z) (user requestId license : string) (ip : string)
    (userAgent : option string) (d : Db) (reqs : gmap string HwidRequest) :
  (let r := runD (admin_approve_hwid_reset reliable no_desk_faults now user requestId
                    license ip userAgent) d reqs in
   r.1 = Ok Redirected ∧
   hwidRequests r.2 = delete requestId reqs ∧
   licenses (db (world r.2)) =
     match licenses d !! license with
     | Some lic =>
         <[license := reset_license now "HWID_RESET_APPROVED" user lic]> (licenses d)
     | None => licenses d
     end ∧
   (∀ lic, licenses d !! license = Some lic →
      ∃ lic', licenses (db (world r.2)) !! license = Some lic' ∧
        unbound lic' ∧ activatedAt lic' = Some Unset ∧ expiry lic' = expiry lic ∧
        history lic' =
          Some (default [] (history lic) ++
                [mkHistoryEntry "HWID_RESET_APPROVED" now None None (Some user)]))) ∧
  (let r := runD (admin_deny_hwid_reset reliable no_desk_faults now requestId ip
                    userAgent) d reqs in
   r.1 = Ok Redirected ∧
   hwidRequests r.2 = delete requestId reqs ∧
   licenses (db (world r.2)) = licenses d).
Proof.
  split.
  - intros r.
    assert (r.1 = Ok Redirected ∧ hwidRequests r.2 = delete requestId reqs ∧
            licenses (db (world r.2)) =
              match licenses d !! license with
              | Some lic =>
                  <[license := reset_license now "HWID_RESET_APPROVED" user lic]>
                    (licenses d)
              | None => licenses d
              end) as (E1 & E2 & E3).
    { subst r. unfold runD, admin_approve_hwid_reset. run_desk.
      destruct (licenses d !! license) as [lic|] eqn:Hl; run_desk; [|done].
      by rewrite write_license_reset. }
    do 3 (split; [done|]). intros lic Hl. rewrite Hl in E3.
    eexists. rewrite E3, lookup_insert_eq. done.
  - intros r. subst r. unfold runD, admin_deny_hwid_reset. run_desk. done.
Qed.

(** ** The further properties at concrete inputs *)

Lemma unban_removes_exact_match_witness :
  hwids_of (banlist (db (run (admin_unban_hwid reliable 30 (Some "H1")
                                "198.51.100.1" None) banned_db).2))
  = Hwids (filter (λ x, x ≠ "H1") ["H1"]) ∧
  ("H1" ∉ filter (λ x, x ≠ "H1") ["H1"]).
Proof.
  destruct (unban_removes_exact_match 30 "H1" "198.51.100.1" None banned_db ["H1"])
    as (_ & _ & E & Hnot & _).
  - reflexivity.
  - split; [exact E | exact Hnot].
Defined.

Lemma unbanned_hwid_not_banned_witness :
  let d' := db (run (admin_unban_hwid reliable 30 (Some "H1") "198.51.100.1" None)
                  banned_db).2 in
  (run (api_validate reliable 40 (ask "LIC-AAAA" "H1")) d').1 ≠ Ok BANNED ∧
  (run (api_register reliable 40 (ask "LIC-AAAA" "H1")) d').1 ≠ Ok BANNED.
Proof.
  apply (unbanned_hwid_not_banned 30 40 (ask "LIC-AAAA" "H1") "LIC-AAAA" "H1"
           "198.51.100.1" None banned_db ["H1"]).
  - reflexivity.
  - by apply ask_well_formed.
Defined.

Lemma banned_after_ban_witness :
  let d' := db (run (admin_ban_hwid reliable 30 (Some "  H9 ") None "198.51.100.1" None)
                  fresh_db).2 in
  (run (api_validate reliable 40 (ask "LIC-AAAA" "H9")) d').1 = Ok BANNED ∧
  (run (api_register reliable 40 (ask "LIC-AAAA" "H9")) d').1 = Ok BANNED.
Proof.
  apply (banned_after_ban 30 40 (ask "LIC-AAAA" "H9") "LIC-AAAA" "  H9 " None
           "198.51.100.1" None fresh_db []).
  - reflexivity.
  - reflexivity.
  - by repeat split.
Defined.

Lemma ban_then_unban_witness :
  let d1 := db (run (admin_ban_hwid reliable 30 (Some "  H9 ") None "198.51.100.1" None)
                  fresh_db).2 in
  hwids_of (banlist (db (run (admin_unban_hwid reliable 40 (Some "H9") "198.51.100.1"
                                None) d1).2)) = Hwids [].
Proof.
  destruct (ban_then_unban 30 40 "  H9 " None "198.51.100.1" None fresh_db [])
    as (H1 & _).
  - reflexivity.
  - discriminate.
  - apply not_elem_of_nil.
  - exact H1.
Defined.

Lemma failed_read_replaces_ban_list_witness :
  hwids_of (banlist banned_db) = Hwids ["H1"] ∧
  banlist (db (run (admin_ban_hwid banlist_read_fails 30 (Some "H9") None
                      "198.51.100.1" None) banned_db).2)
    = Some (Some (Hwids ["H9"])).
Proof.
  split; [reflexivity|].
  destruct (failed_read_replaces_ban_list banlist_read_fails 30 None "H9" None
              "198.51.100.1" None banned_db) as (_ & H2).
  - reflexivity.
  - reflexivity.
  - apply H2. discriminate.
Defined.

Lemma after_reset_any_device_witness :
  let d' := db (run (admin_reset_hwid reliable 30 "admin" "LIC-AAAA" "198.51.100.1" None)
                  bound_db).2 in
  (run (api_validate reliable 40 (ask "LIC-AAAA" "H2")) d').1 = Ok HWID_MISMATCH ∧
  (run (api_register reliable 40 (ask "LIC-AAAA" "H2")) d').1 = Ok SUCCESS.
Proof.
  destruct (after_reset_any_device 30 40 "admin" "LIC-AAAA" "H2" "198.51.100.1" None
              (ask "LIC-AAAA" "H2") bound_db [] (bound_license "H1")) as (H1 & H2).
  - reflexivity.
  - reflexivity.
  - apply not_elem_of_nil.
  - by apply ask_well_formed.
  - reflexivity.
  - reflexivity.
  - split; [exact H1|]. apply H2.
    intros Hx%hwid_in_use_spec. vm_compute in Hx. discriminate Hx.
Defined.

Lemma generate_license_creates_unbound_witness :
  let r := run (admin_generate_license reliable 30 (λ _, 0%N) (λ _, "") "admin"
                  (Some "LIC-NEW") (Some (Some 90%Z)) "198.51.100.1" None) fresh_db in
  r.1 = Ok Redirected ∧
  ∃ lic, licenses (db r.2) !! "LIC-NEW" = Some lic ∧ unbound lic.
Proof.
  destruct (generate_license_creates_unbound 30 (λ _, 0%N) (λ _, "") "admin" "LIC-NEW"
              (Some 90%Z) "198.51.100.1" None fresh_db)
    as ((H1 & (lic & Hl & Hu & _) & _) & _).
  - discriminate.
  - reflexivity.
  - split; [exact H1|]. exists lic. split; [exact Hl | exact Hu].
Defined.

Lemma generate_register_validate_witness :
  let d1 := db (run (admin_generate_license reliable 30 (λ _, 0%N) (λ _, "") "admin"
                       (Some "LIC-NEW") (Some (Some 90%Z)) "198.51.100.1" None)
                  fresh_db).2 in
  let r2 := run (api_register reliable 40 (ask "LIC-NEW" "H5")) d1 in
  let r3 := run (api_validate reliable 50 (ask "LIC-NEW" "H5")) (db r2.2) in
  r2.1 = Ok SUCCESS ∧ r3.1 = Ok VALID.
Proof.
  apply (generate_register_validate 30 40 50 (λ _, 0%N) (λ _, "") "admin" "LIC-NEW" "H5"
           (Some 90%Z) "198.51.100.1" None (ask "LIC-NEW" "H5") (ask "LIC-NEW" "H5")
           fresh_db []).
  - reflexivity.
  - reflexivity.
  - apply not_elem_of_nil.
  - by apply ask_well_formed.
  - by apply ask_well_formed.
  - reflexivity.
  - intros Hx%hwid_in_use_spec. vm_compute in Hx. discriminate Hx.
  - intros t [= <-]. lia.
Defined.

Lemma registered_device_validates_witness :
  let r1 := run (api_register reliable 10 (ask "LIC-AAAA" "H1")) fresh_db in
  (run (api_validate reliable 20 (ask "LIC-AAAA" "H1")) (db r1.2)).1 = Ok VALID.
Proof.
  destruct (registered_device_validates 10 20 (ask "LIC-AAAA" "H1") (ask "LIC-AAAA" "H1")
              "LIC-AAAA" "H1" fresh_db []) as (H1 & _).
  - by apply ask_well_formed.
  - by apply ask_well_formed.
  - reflexivity.
  - reflexivity.
  - intros lic [= <-]. reflexivity.
  - exact H1.
Defined.

Lemma fresh_db_lookup k r :
  licenses fresh_db !! k = Some r → "LIC-AAAA" = k ∧ new_license = r.
Proof. unfold fresh_db. cbn [licenses]. by intros H%lookup_singleton_Some. Defined.

Lemma shared_db_lookup k r :
  licenses shared_db !! k = Some r →
  ("LIC-BBBB" = k ∧ bound_license "H1" = r) ∨ ("LIC-AAAA" = k ∧ new_license = r).
Proof.
  unfold shared_db. cbn [licenses].
  intros [[<- <-] | [_ H]]%lookup_insert_Some; [by left|].
  apply lookup_singleton_Some in H. by right.
Defined.

Lemma fresh_db_hwids_unique : hwids_unique (licenses fresh_db).
Proof.
  intros k1 k2 r1 r2 h H1 _ Hh _ Hne.
  apply fresh_db_lookup in H1 as [_ <-]. cbn in Hh. congruence.
Defined.

Lemma api_calls_keep_hwids_unique_witness :
  hwids_unique (licenses (db (run (api_register reliable 10 (ask "LIC-AAAA" "H1"))
                                fresh_db).2)).
Proof.
  destruct (api_calls_keep_hwids_unique reliable 10 (ask "LIC-AAAA" "H1") fresh_db
              fresh_db_hwids_unique) as (_ & H2).
  apply H2. reflexivity.
Defined.

Lemma failed_scan_misses_conflict_witness :
  let r := run (api_register scan_fails 10 (ask "LIC-AAAA" "H1")) shared_db in
  hwids_unique (licenses shared_db) ∧
  r.1 = Ok SUCCESS ∧ ¬ hwids_unique (licenses (db r.2)).
Proof.
  split.
  { intros k1 k2 r1 r2 h H1 H2 Hh1 Hh2 Hne.
    apply shared_db_lookup in H1 as [[<- <-] | [<- <-]];
      apply shared_db_lookup in H2 as [[<- <-] | [<- <-]]; try done;
      cbn in Hh1, Hh2; congruence. }
  destruct (failed_scan_misses_conflict scan_fails 10 (ask "LIC-AAAA" "H1") "LIC-AAAA"
              "H1" "LIC-BBBB" shared_db [] new_license (bound_license "H1"))
    as (H1 & _ & _ & H4).
  - by apply ask_well_formed.
  - reflexivity.
  - reflexivity.
  - reflexivity.
  - reflexivity.
  - reflexivity.
  - reflexivity.
  - reflexivity.
  - apply not_elem_of_nil.
  - reflexivity.
  - reflexivity.
  - reflexivity.
  - discriminate.
  - reflexivity.
  - reflexivity.
  - split; [exact H1 | exact H4].
Defined.

Lemma deleted_license_is_invalid_witness :
  let r := runD (admin_delete_license reliable no_desk_faults 30 "LIC-AAAA"
                   "198.51.100.1" None) bound_db ∅ in
  (run (api_validate reliable 40 (ask "LIC-AAAA" "H1")) (db (world r.2))).1
    = Ok INVALID_LICENSE.
Proof.
  destruct (deleted_license_is_invalid 30 40 "LIC-AAAA" "H1" "198.51.100.1" None
              (ask "LIC-AAAA" "H1") bound_db ∅ []) as (_ & _ & _ & H4 & _).
  - reflexivity.
  - reflexivity.
  - apply not_elem_of_nil.
  - by apply ask_well_formed.
  - exact H4.
Defined.

Lemma deleting_releases_hwid_witness :
  (run (api_register reliable 40 (ask "LIC-AAAA" "H1")) shared_db).1 = Ok HWID_IN_USE ∧
  (run (api_register reliable 40 (ask "LIC-AAAA" "H1"))
     (db (world (runD (admin_delete_license reliable no_desk_faults 30 "LIC-BBBB"
                         "198.51.100.1" None) shared_db ∅).2))).1 = Ok SUCCESS.
Proof.
  split; [reflexivity|].
  apply (deleting_releases_hwid 30 40 "LIC-BBBB" "LIC-AAAA" "H1" "198.51.100.1" None
           (ask "LIC-AAAA" "H1") shared_db ∅ [] new_license).
  - reflexivity.
  - reflexivity.
  - apply not_elem_of_nil.
  - by apply ask_well_formed.
  - discriminate.
  - reflexivity.
  - intros (h0 & [= <-] & Hne & _). by apply Hne.
  - reflexivity.
  - intros k r Hl _. apply shared_db_lookup in Hl as [[<- _] | [<- _]]; [by left|by right].
Defined.

Lemma formatTimeAgo_units_witness :
  formatTimeAgo 1700000000000 1699994600000 = "1h ago".
Proof.
  destruct (formatTimeAgo_units 1700000000000 1699994600000) as (_ & _ & H3 & _).
  - lia.
  - lia.
  - lia.
  - destruct H3 as (h & _ & Hh & E); [lia|]. rewrite E, Hh. reflexivity.
Defined.
